(** * The websocket notification bridge of the abstract salad bar

    A shallow embedding of [abstract_salad_bar/websocket.py]: the path
    helpers [parse_path] and [is_valid_app_path], and the [PubSub]
    connection handler with its commands [ls], [subscribe] and
    [unsubscribe], its [consumer] and [producer] branches, and the set-up
    done by [__init__] and [create].

    Python [str] values are [string]s, the subscription [set] is a
    [gset string], JSON documents are values of the inductive type [json].
    Everything a coroutine does to the outside world (frames sent, the close
    call, the HTTP probe) is recorded in a trace of [Event]s; exceptions are
    values of type [Exn].

    What the module takes from elsewhere is a parameter: the configuration
    values, [requests.get], [json.loads], [bytes.decode] and
    [urllib.parse.urlparse]; for the last, [Urllib311] follows the library
    of CPython 3.11. The methods of
    [PubSub] are written over the validity check they call, so that what is
    proved of them holds for [is_valid_app_path] as it stands and for any
    other check in its place. Calls on the websocket and on the redis handle
    are taken to return normally; [websocket.close] is recorded as the call
    the code makes. *)

From Stdlib Require Import ZArith Ascii String.
From stdpp Require Import base option list strings sorting gmap.

Set Warnings "-register-all".
Local Open Scope Z_scope.

(** ** Python [str] methods used by the module *)

Module Py.

(** [s.lstrip(chars)] for a one-character [chars]. *)
Fixpoint lstrip (c : ascii) (s : string) : string :=
  match s with
  | String a s' => if Ascii.eqb a c then lstrip c s' else s
  | EmptyString => EmptyString
  end.

(** [s.rstrip(chars)] for a one-character [chars]. *)
Fixpoint rstrip (c : ascii) (s : string) : string :=
  match s with
  | EmptyString => EmptyString
  | String a s' =>
      match rstrip c s' with
      | EmptyString => if Ascii.eqb a c then EmptyString else String a EmptyString
      | r => String a r
      end
  end.

(** [s[:n]] and [s[n:]] for [n >= 0]. *)
Fixpoint take (n : nat) (s : string) : string :=
  match n, s with
  | S n', String a s' => String a (take n' s')
  | _, _ => EmptyString
  end.

Fixpoint drop (n : nat) (s : string) : string :=
  match n, s with
  | S n', String _ s' => drop n' s'
  | _, _ => s
  end.

(** [s.startswith(p)]. *)
Fixpoint startswith (p s : string) : bool :=
  match p, s with
  | EmptyString, _ => true
  | String a p', String b s' => Ascii.eqb a b && startswith p' s'
  | String _ _, EmptyString => false
  end.

(** [s.endswith(p)]: the last [len(p)] characters of [s] are [p]. *)
Definition endswith (p s : string) : bool :=
  (String.length p <=? String.length s)%nat
  && String.eqb (drop (String.length s - String.length p) s) p.

(** [s[:-n]] for [n > 0]. *)
Definition drop_last (n : nat) (s : string) : string :=
  take (String.length s - n) s.

(** [s.find(c)]: [None] stands for [-1]. *)
Fixpoint find (c : ascii) (s : string) : option nat :=
  match s with
  | EmptyString => None
  | String a s' => if Ascii.eqb a c then Some O else S <$> find c s'
  end.

(** [s.find(c, start)]. *)
Definition find_from (c : ascii) (start : nat) (s : string) : option nat :=
  (fun i => (start + i)%nat) <$> find c (drop start s).

(** [s.rfind(c)]. *)
Fixpoint rfind (c : ascii) (s : string) : option nat :=
  match s with
  | EmptyString => None
  | String a s' =>
      match rfind c s' with
      | Some i => Some (S i)
      | None => if Ascii.eqb a c then Some O else None
      end
  end.

(** [c in s]. *)
Definition contains (c : ascii) (s : string) : bool :=
  bool_decide (is_Some (find c s)).

(** [s.split(c, 1)] when [c in s]; [(s, "")] stands for the unsplit case,
    which the callers exclude by testing [c in s] first. *)
Definition split1 (c : ascii) (s : string) : string * string :=
  match find c s with
  | Some i => (take i s, drop (S i) s)
  | None => (s, EmptyString)
  end.

Definition lower_char (a : ascii) : ascii :=
  let n := nat_of_ascii a in
  if ((65 <=? n) && (n <=? 90))%nat then ascii_of_nat (n + 32) else a.

(** [s.lower()] on ASCII letters. *)
Fixpoint lower (s : string) : string :=
  match s with
  | EmptyString => EmptyString
  | String a s' => String (lower_char a) (lower s')
  end.

Fixpoint all_chars (f : ascii -> bool) (s : string) : bool :=
  match s with
  | EmptyString => true
  | String a s' => f a && all_chars f s'
  end.

Definition is_digit (a : ascii) : bool :=
  let n := nat_of_ascii a in ((48 <=? n) && (n <=? 57))%nat.

Definition is_alpha (a : ascii) : bool :=
  let n := nat_of_ascii a in
  (((65 <=? n) && (n <=? 90)) || ((97 <=? n) && (n <=? 122)))%nat.

End Py.

(** ** Exceptions, JSON values and the trace of effects *)

Inductive Exn : Type :=
  | KeyError (key : string)
  | ValueError (msg : string)
  | TypeError
  | AttributeError
  | UnicodeDecodeError
  | JSONDecodeError
  | ConnectionError
  | ConnectionClosed.

(** The values [json.loads] can return. A [dict] is kept as its items, keys
    distinct; numbers are integers or floats (their IEEE 754 bits). *)
Inductive json : Type :=
  | JNull
  | JBool (b : bool)
  | JInt (n : Z)
  | JFloat (bits : Z)
  | JStr (s : string)
  | JArr (items : list json)
  | JObj (items : list (string * json)).

(** [d.get(key)] and [d[key]] on the items of a dict. *)
Fixpoint dict_get (d : list (string * json)) (key : string) : option json :=
  match d with
  | [] => None
  | (k, v) :: d' => if String.eqb k key then Some v else dict_get d' key
  end.

Definition dict_getitem (d : list (string * json)) (key : string) : Exn + json :=
  match dict_get d key with
  | Some v => inr v
  | None => inl (KeyError key)
  end.

(** What the handler does to the outside world, in order. *)
Inductive Event : Type :=
  | HttpGet (url : string)                   (* requests.get(url) *)
  | WsSend (v : json)                        (* websocket.send(json.dumps(v)) *)
  | WsClose (code : Z) (reason : string)     (* websocket.close(code, reason) *)
  | WsRecv.                                  (* a websocket.recv() is started *)

(** Python truth value of a JSON value. *)
Definition truthy (v : json) : bool :=
  match v with
  | JNull => false
  | JBool b => b
  | JInt n => negb (n =? 0)
  | JFloat bits => negb (Z.land bits (Z.ones 63) =? 0)
  | JStr s => negb (String.eqb s "")
  | JArr items => negb (bool_decide (items = []))
  | JObj items => negb (bool_decide (items = []))
  end.

(** ** [parse_path] and [urllib.parse.urlparse]

    [parse_path] returns the [path] attribute of [urlparse(path)]. What
    [urlparse] does with a [str] depends on the interpreter the module runs
    on, so it is a parameter of [parse_path] and of the handler. Module
    [Urllib311] below follows the library as CPython 3.11 has it and is used
    for the properties of [parse_path] that depend on it. *)

Module Urllib.

(** What [urlparse] returns for a [str]. *)
Record ParseResult : Type := mkParseResult {
  scheme : string;
  netloc : string;
  path : string;
  params : string;
  query : string;
  fragment : string
}.

End Urllib.

(** Only return the path part of an url. *)
Definition parse_path (urlparse : string → Exn + Urllib.ParseResult)
    (path : string) : Exn + string :=
  match urlparse path with
  | inl e => inl e
  | inr url => inr (Urllib.path url)
  end.

(** [urlparse] and [urlsplit] on a [str] as CPython 3.11 has them, with
    [_splitnetloc], [_check_bracketed_netloc], [_checknetloc] and
    [_splitparams]; the result cache is left out. Two checks are parameters:
    [_check_bracketed_host], which needs the modules [ipaddress] and [re],
    and the NFKC part of [_checknetloc], which needs [unicodedata]; each
    gives the exception it raises, if any. *)
Module Urllib311.
Section Checks.

Variable check_bracketed_host : string → option Exn.
Variable nfkc_check : string → option Exn.

(** [s.lstrip(chars)] for the set of the characters that satisfy [f]. *)
Fixpoint lstrip_set (f : ascii → bool) (s : string) : string :=
  match s with
  | String a s' => if f a then lstrip_set f s' else s
  | EmptyString => EmptyString
  end.

(** [s.replace(b, '')] for every character [b] that satisfies [f]. *)
Fixpoint remove_chars (f : ascii → bool) (s : string) : string :=
  match s with
  | String a s' => if f a then remove_chars f s' else String a (remove_chars f s')
  | EmptyString => EmptyString
  end.

(** [_WHATWG_C0_CONTROL_OR_SPACE]: the characters up to the space. *)
Definition c0_control_or_space (a : ascii) : bool :=
  (nat_of_ascii a <=? 32)%nat.

(** [_UNSAFE_URL_BYTES_TO_REMOVE]: tab, carriage return and line feed. *)
Definition unsafe_url_byte (a : ascii) : bool :=
  let n := nat_of_ascii a in
  ((n =? 9) || (n =? 13) || (n =? 10))%nat.

(** [c.isascii()]. *)
Definition is_ascii (a : ascii) : bool := (nat_of_ascii a <? 128)%nat.

(** [scheme_chars]: letters, digits and "+-.". *)
Definition scheme_char (a : ascii) : bool :=
  Py.is_alpha a || Py.is_digit a
  || Ascii.eqb a "+" || Ascii.eqb a "-" || Ascii.eqb a ".".

Definition uses_params : list string :=
  [""; "ftp"; "hdl"; "prospero"; "http"; "imap"; "https"; "shttp"; "rtsp";
   "rtspu"; "sip"; "sips"; "mms"; "sftp"; "tel"].

(** [_splitnetloc(url, start)]: the netloc ends at the first of "/?#". *)
Definition splitnetloc (url : string) (start : nat) : string * string :=
  let step delim c :=
    match Py.find_from c start url with
    | Some wdelim => Nat.min delim wdelim
    | None => delim
    end in
  let delim := fold_left step ["/"; "?"; "#"]%char (String.length url) in
  (Py.take (delim - start) (Py.drop start url), Py.drop delim url).

(** The scheme is split off at the first ":" when the url starts with an
    ASCII letter and what precedes the ":" consists of scheme characters. *)
Definition split_scheme (url : string) : string * string :=
  match Py.find ":" url with
  | Some (S i') =>
      let i := S i' in
      if Py.all_chars Py.is_alpha (Py.take 1 url)
         && Py.all_chars scheme_char (Py.take i url)
      then (Py.lower (Py.take i url), Py.drop (S i) url)
      else (EmptyString, url)
  | _ => (EmptyString, url)
  end.

(** [_check_bracketed_netloc(netloc)]: nothing stands before the bracket
    that opens the host, and after the one that closes it only a port. *)
Definition check_bracketed_netloc (netloc : string) : option Exn :=
  let hostname_and_port :=
    match Py.rfind "@" netloc with
    | Some i => Py.drop (S i) netloc
    | None => netloc
    end in
  match Py.find "[" hostname_and_port with
  | Some i =>
      let before_bracket := Py.take i hostname_and_port in
      let bracketed := Py.drop (S i) hostname_and_port in
      if negb (String.eqb before_bracket EmptyString)
      then Some (ValueError "Invalid IPv6 URL")
      else
        let '(hostname, port) :=
          match Py.find "]" bracketed with
          | Some j => (Py.take j bracketed, Py.drop (S j) bracketed)
          | None => (bracketed, EmptyString)
          end in
        if negb (String.eqb port EmptyString) && negb (Py.startswith ":" port)
        then Some (ValueError "Invalid IPv6 URL")
        else check_bracketed_host hostname
  | None =>
      let hostname :=
        match Py.find ":" hostname_and_port with
        | Some j => Py.take j hostname_and_port
        | None => hostname_and_port
        end in
      check_bracketed_host hostname
  end.

(** [_checknetloc(netloc)]: nothing to check in an empty or an ASCII
    netloc. *)
Definition checknetloc (netloc : string) : option Exn :=
  if String.eqb netloc EmptyString || Py.all_chars is_ascii netloc then None
  else nfkc_check netloc.

(** [urlsplit(url)]: scheme, netloc, path, query, fragment. *)
Definition urlsplit (url : string)
  : Exn + (string * string * string * string * string) :=
  let url := lstrip_set c0_control_or_space url in
  let url := remove_chars unsafe_url_byte url in
  let '(scheme, url) := split_scheme url in
  let '(netloc, url) :=
    if String.eqb (Py.take 2 url) "//" then splitnetloc url 2
    else (EmptyString, url) in
  if (Py.contains "[" netloc && negb (Py.contains "]" netloc))
     || (Py.contains "]" netloc && negb (Py.contains "[" netloc))
  then inl (ValueError "Invalid IPv6 URL")
  else
    match (if Py.contains "[" netloc && Py.contains "]" netloc
           then check_bracketed_netloc netloc else None) with
    | Some e => inl e
    | None =>
        let '(url, fragment) :=
          if Py.contains "#" url then Py.split1 "#" url else (url, EmptyString) in
        let '(url, query) :=
          if Py.contains "?" url then Py.split1 "?" url else (url, EmptyString) in
        match checknetloc netloc with
        | Some e => inl e
        | None => inr (scheme, netloc, url, query, fragment)
        end
    end.

(** [_splitparams(url)], called when ";" occurs in [url]. *)
Definition splitparams (url : string) : string * string :=
  if Py.contains "/" url then
    match Py.find_from ";" (default O (Py.rfind "/" url)) url with
    | Some i => (Py.take i url, Py.drop (S i) url)
    | None => (url, EmptyString)
    end
  else
    match Py.find ";" url with
    | Some i => (Py.take i url, Py.drop (S i) url)
    | None => (url, EmptyString)
    end.

Definition urlparse (url : string) : Exn + Urllib.ParseResult :=
  match urlsplit url with
  | inl e => inl e
  | inr (scheme, netloc, url, query, fragment) =>
      let '(url, params) :=
        if bool_decide (scheme ∈ uses_params) && Py.contains ";" url
        then splitparams url else (url, EmptyString) in
      inr (Urllib.mkParseResult scheme netloc url params query fragment)
  end.

End Checks.
End Urllib311.

(** ** Coroutines as state, trace and exception passing *)

(** The per-connection state of a [PubSub] object: the [subscriptions] set
    and the channels its redis pubsub handle [p] is subscribed to. *)
Record PubSub : Type := mkPubSub {
  subscriptions : gset string;
  p : gset string
}.

(** A call that touches no [PubSub] state: the events it caused and its
    result or exception. *)
Definition Eff (A : Type) : Type := list Event * (Exn + A).

(** A method of [PubSub]: from the state before to the events caused, the
    state after, and the result or the exception raised. *)
Definition M (A : Type) : Type := PubSub → list Event * PubSub * (Exn + A).

#[global] Instance M_ret : MRet M := λ A x st, ([], st, inr x).

#[global] Instance M_bind : MBind M := λ A B f m st,
  match m st with
  | (tr, st', inl e) => (tr, st', inl e)
  | (tr, st', inr x) =>
      match f x st' with
      | (tr', st'', r) => (tr ++ tr', st'', r)
      end
  end.

Definition raise {A} (e : Exn) : M A := λ st, ([], st, inl e).
Definition emit (ev : Event) : M unit := λ st, ([ev], st, inr tt).
Definition get_state : M PubSub := λ st, ([], st, inr st).
Definition put_state (st : PubSub) : M unit := λ _, ([], st, inr tt).
Definition lift_eff {A} (c : Eff A) : M A := λ st, (c.1, st, c.2).
Definition lift_exn {A} (r : Exn + A) : M A := λ st, ([], st, r).

(** [await self.websocket.send(json.dumps(v))]. *)
Definition send (v : json) : M unit := emit (WsSend v).

(** The reply [{'error': text}]. *)
Definition error_reply (text : string) : json := JObj [("error", JStr text)].

(** ** [is_valid_app_path] *)

Section Probe.

(** [config['host'].get()] and [config['port'].get()] as formatted into the
    probe url, and [requests.get(url)]: the status code of the response, or
    the exception of a failed transport. *)
Variables config_host config_port : string.
Variable requests_get : string → Exn + Z.

(** Check that the path is a existing app path. *)
Definition is_valid_app_path (path : string) : Eff bool :=
  if Py.startswith "/api" (Py.lstrip "/" path) then
    let url := "http://" +:+ config_host +:+ ":" +:+ config_port
               +:+ "/" +:+ Py.lstrip "/" path in
    match requests_get url with
    | inl e => ([HttpGet url], inl e)
    | inr status_code =>
        ([HttpGet url], inr (negb ((400 <=? status_code) && (status_code <? 600))))
    end
  else ([], inr false).

End Probe.

(** ** The [PubSub] handler *)

(** The value [urlparse(v).path] the commands work with. For a [str] it is a
    [str]. A value that is not a [str] sends [urlparse] down its bytes code
    path: a falsy one is taken for [b''], whose path is [b'']. *)
Inductive PathValue : Type :=
  | StrPath (s : string)
  | EmptyBytesPath.

(** ['{}'.format(path)]. *)
Definition format_path (path : PathValue) : string :=
  match path with
  | StrPath s => s
  | EmptyBytesPath => "b''"
  end.

(** A message of the redis pubsub handle, as [get_message] returns it. *)
Record RedisMessage : Type := mkRedisMessage {
  r_type : string;
  r_channel : list Byte.byte;
  r_data : list Byte.byte + Z
}.

(** What [asyncio.wait(..., return_when=FIRST_COMPLETED)] finds done in one
    turn of the main loop: the listener (with the frame received or the
    exception of [recv]), the producer (having taken a message off the
    handle), or both. *)
Inductive Ready : Type :=
  | Inbound (frame : Exn + string)
  | Published (r_message : RedisMessage)
  | InboundAndPublished (frame : Exn + string) (r_message : RedisMessage).

Module PubSub.
Section Handler.

(** [urllib.parse.urlparse] on a [str]. *)
Variable urlparse : string → Exn + Urllib.ParseResult.

(** The module-level function [is_valid_app_path], as the methods find it
    when they call it on a [str]. *)
Variable check_path : string → Eff bool.

(** [json.loads] on a frame, and [bytes.decode('utf-8')]. *)
Variable json_loads : string → Exn + json.
Variable decode_utf8 : list Byte.byte → Exn + string.

Definition functions : list string := ["ls"; "subscribe"; "unsubscribe"].

(** [sorted] on a set of [str]: ascending in the order of [str]. *)
Definition sorted (s : gset string) : list string :=
  merge_sort String.le (elements s).

(** [parse_path(message['path'])] for the value found under ['path']. *)
Definition parse_path_value (v : json) : Exn + PathValue :=
  match v with
  | JStr raw =>
      match parse_path urlparse raw with
      | inl e => inl e
      | inr path => inr (StrPath path)
      end
  | _ => if truthy v then inl AttributeError else inr EmptyBytesPath
  end.

(** [path in self.subscriptions]: the set holds [str] only. *)
Definition is_subscribed (path : PathValue) (st : PubSub) : bool :=
  match path with
  | StrPath s => bool_decide (s ∈ subscriptions st)
  | EmptyBytesPath => false
  end.

(** [is_valid_app_path(path)]: its [path.lstrip('/')] is a [TypeError] on
    bytes. *)
Definition is_valid (path : PathValue) : M bool :=
  match path with
  | StrPath s => lift_eff (check_path s)
  | EmptyBytesPath => raise TypeError
  end.

Definition ls (message : list (string * json)) : M unit :=
  st ← get_state;
  send (JArr (JStr <$> sorted (subscriptions st))).

Definition subscribe (message : list (string * json)) : M unit :=
  v ← lift_exn (dict_getitem message "path");
  path ← lift_exn (parse_path_value v);
  st ← get_state;
  if negb (is_subscribed path st) then
    valid ← is_valid path;
    if negb valid then
      send (error_reply ("Invalid path: " +:+ format_path path))
    else
      put_state {| subscriptions := {[format_path path]} ∪ subscriptions st;
                   p := {[format_path path]} ∪ p st |}
  else
    send (error_reply ("Already subscribed to path: " +:+ format_path path)).

Definition unsubscribe (message : list (string * json)) : M unit :=
  v ← lift_exn (dict_getitem message "path");
  path ← lift_exn (parse_path_value v);
  st ← get_state;
  if is_subscribed path st then
    put_state {| subscriptions := subscriptions st ∖ {[format_path path]};
                 p := p st ∖ {[format_path path]} |}
  else
    send (error_reply ("Not subscribed to path: " +:+ format_path path)).

(** [getattr(self, function)] for a name in [functions]. *)
Definition getattr (function : string) : M (list (string * json) → M unit) :=
  if String.eqb function "ls" then mret ls
  else if String.eqb function "subscribe" then mret subscribe
  else if String.eqb function "unsubscribe" then mret unsubscribe
  else raise AttributeError.

(** [function not in self.functions], for the value of
    [message.get('function')]. *)
Definition known_function (function : option json) : option string :=
  match function with
  | Some (JStr name) => if bool_decide (name ∈ functions) then Some name else None
  | _ => None
  end.

Definition consumer (message : string) : M unit :=
  match json_loads message with
  | inl _ => send (error_reply "Message is not json loadable.")
  | inr (JObj message) =>
      match known_function (dict_get message "function") with
      | None =>
          send (error_reply ("function must be one of: "
                             +:+ String.concat ", " functions +:+ "."))
      | Some function =>
          method ← getattr function;
          method message
      end
  | inr _ => send (error_reply "Message must be a dict.")
  end.

(** [v[key]] for a value of [json.loads]: only a dict can be indexed by a
    [str]. *)
Definition json_getitem (v : json) (key : string) : Exn + json :=
  match v with
  | JObj d => dict_getitem d key
  | _ => inl TypeError
  end.

(** [d[key] = v] and [d.update(items)]. *)
Fixpoint dict_set (d : list (string * json)) (key : string) (v : json)
  : list (string * json) :=
  match d with
  | [] => [(key, v)]
  | (k, v') :: d' =>
      if String.eqb k key then (k, v) :: d' else (k, v') :: dict_set d' key v
  end.

Definition dict_update (d items : list (string * json)) : list (string * json) :=
  fold_left (λ d kv, dict_set d kv.1 kv.2) items d.

(** [producer], from the message [get_redis_message] returned. *)
Definition producer (r_message : RedisMessage) : M unit :=
  let function := r_type r_message in
  path ← lift_exn (decode_utf8 (r_channel r_message));
  let w_message := [("function", JStr function); ("path", JStr path)] in
  w_message ←
    (if String.eqb function "message" then
       raw ← lift_exn (match r_data r_message with
                       | inl b => decode_utf8 b
                       | inr _ => inl AttributeError
                       end);
       data ← lift_exn (json_loads raw);
       d ← lift_exn (json_getitem data "data");
       t ← lift_exn (json_getitem data "type");
       mret (dict_update w_message [("data", d); ("type", t)])
     else mret w_message);
  send (JObj w_message).

(** The state [__init__] starts from. *)
Definition fresh : PubSub := {| subscriptions := ∅; p := ∅ |}.

(** [__init__(websocket, path)]. Its result is the argument of the
    [subscribe] it hands to [asyncio.ensure_future], if any. *)
Definition __init__ (path : string) : M (option (list (string * json))) :=
  let path := Py.rstrip "/" path in
  let path := if Py.endswith "/ws" path then Py.drop_last 3 path else path in
  valid ← lift_eff (check_path path);
  (if negb valid then emit (WsClose 4000 "Invalid path.") else mret tt);;
  if negb (String.eqb path "") then mret (Some [("path", JStr path)])
  else mret None.

(** A coroutine run as a task of its own: an exception it raises stays in
    the task and is returned as its result. *)
Definition as_task (c : M unit) : M (option Exn) := λ st,
  match c st with
  | (tr, st', inl e) => (tr, st', inr (Some e))
  | (tr, st', inr _) => (tr, st', inr None)
  end.

(** [task.result()]. *)
Definition task_result (r : option Exn) : M unit :=
  match r with
  | Some e => raise e
  | None => mret tt
  end.

(** What one turn of the loop in [handle] does once [asyncio.wait] has
    returned. The producer task has run before [handle] goes on. *)
Definition finish (ready : Ready) : M unit :=
  match ready with
  | Inbound frame =>
      frame ← lift_exn frame;
      consumer frame
  | Published r_message =>
      done ← as_task (producer r_message);
      task_result done
  | InboundAndPublished frame r_message =>
      done ← as_task (producer r_message);
      frame ← lift_exn frame;
      consumer frame;;
      task_result done
  end.

(** [handle], for the turns [readies] of its loop. Each turn starts a
    [recv] and then waits; the tasks scheduled before the first wait
    ([pending]) run during it. When [readies] is used up the handler is
    left waiting, which is the result [inr tt]; the loop itself never
    returns. *)
Fixpoint handle (pending : M unit) (readies : list Ready) : M unit :=
  emit WsRecv;;
  pending;;
  match readies with
  | [] => mret tt
  | ready :: readies' => finish ready;; handle (mret tt) readies'
  end.

(** [__exit__] when [handle] left with an exception: the handle drops all
    its channels, and [self.log.Exception] does not exist. *)
Definition __exit__ (exc_val : Exn) : M unit :=
  st ← get_state;
  put_state {| subscriptions := subscriptions st; p := ∅ |};;
  raise AttributeError.

(** The [with] block of [create] around a body that has not returned. *)
Definition with_self (body : M unit) : M unit := λ st,
  match body st with
  | (tr, st', inl e) =>
      match __exit__ e st' with
      | (tr', st'', r) => (tr ++ tr', st'', r)
      end
  | (tr, st', inr tt) => (tr, st', inr tt)
  end.

(** [create(websocket, path)], started on a [fresh] object. *)
Definition create (path : string) (readies : list Ready) : M unit :=
  first ← __init__ path;
  let pending :=
    match first with
    | Some message => as_task (subscribe message);; mret tt
    | None => mret tt
    end in
  with_self (handle pending readies).

End Handler.
End PubSub.

(** * Vocabulary of the statements *)

(** The state a method leaves behind. *)
Definition state_after {A} (c : M A) (st : PubSub) : PubSub := (c st).1.2.

(** The events a method causes. *)
Definition events_of {A} (c : M A) (st : PubSub) : list Event := (c st).1.1.

(** A command message whose ['path'] is the [str] [raw]. *)
Definition has_path (message : list (string * json)) (raw : string) : Prop :=
  dict_get message "path" = Some (JStr raw).

(** [urlparse] for the examples. It gives what the library gives for the urls
    the examples use: a plain path, or an url on [http://localhost:5000],
    each with or without a query and a fragment; and it raises, as the
    library does, on [//[::1/api], whose netloc has a bracket that is not
    closed. *)
Definition sample_urlparse (url : string) : Exn + Urllib.ParseResult :=
  if String.eqb url "//[::1/api" then inl (ValueError "Invalid IPv6 URL")
  else
    let on_localhost := Py.startswith "http://localhost:5000" url in
    let rest := if on_localhost then Py.drop 21 url else url in
    let '(rest, fragment) :=
      if Py.contains "#" rest then Py.split1 "#" rest else (rest, EmptyString) in
    let '(rest, query) :=
      if Py.contains "?" rest then Py.split1 "?" rest else (rest, EmptyString) in
    inr {| Urllib.scheme := if on_localhost then "http" else EmptyString;
           Urllib.netloc := if on_localhost then "localhost:5000" else EmptyString;
           Urllib.path := rest;
           Urllib.params := EmptyString;
           Urllib.query := query;
           Urllib.fragment := fragment |}.

(** The library of CPython 3.11 with a host check and an NFKC check that
    never raise; the two are only run on a netloc with both square brackets
    or with a character that is not ASCII. *)
Definition no_check : string → option Exn := λ _, None.

Definition urlparse311 : string → Exn + Urllib.ParseResult :=
  Urllib311.urlparse no_check no_check.

(** Instances for the examples: a resource server that answers every probe
    with status 200, the check of the module configured for it, and a check
    that accepts every path. *)
Definition always_200 : string → Exn + Z := λ _, inr 200.

Definition module_check : string → Eff bool :=
  is_valid_app_path "localhost" "5000" always_200.

Definition accept_all : string → Eff bool := λ _, ([], inr true).

(** A handler subscribed to the one channel [path]. *)
Definition subscribed_to (path : string) : PubSub :=
  {| subscriptions := {[path]}; p := {[path]} |}.

(** The frames C7 is about, each with the text of the error it is answered
    with: a frame [json.loads] fails on, one that loads to something other
    than a dict, and a dict whose ['function'] is missing or is none of the
    three command names. *)
Inductive Rejected (json_loads : string → Exn + json) (frame : string)
  : string → Prop :=
  | rejected_not_json e :
      json_loads frame = inl e →
      Rejected json_loads frame "Message is not json loadable."
  | rejected_not_dict v :
      json_loads frame = inr v → (∀ d, v ≠ JObj d) →
      Rejected json_loads frame "Message must be a dict."
  | rejected_function d :
      json_loads frame = inr (JObj d) →
      (∀ name, name ∈ PubSub.functions →
               dict_get d "function" ≠ Some (JStr name)) →
      Rejected json_loads frame
        "function must be one of: ls, subscribe, unsubscribe.".

(** Frames and a [json.loads] for the examples. The loader knows the frame
    [{"function": name}] for three names, and the frame of the empty
    list. *)
Definition quoted (s : string) : string :=
  String (ascii_of_nat 34) (s +:+ String (ascii_of_nat 34) EmptyString).

Definition command_frame (name : string) : string :=
  "{" +:+ quoted "function" +:+ ": " +:+ quoted name +:+ "}".

Definition sample_loads (frame : string) : Exn + json :=
  if String.eqb frame (command_frame "ls") then
    inr (JObj [("function", JStr "ls")])
  else if String.eqb frame (command_frame "subscribe") then
    inr (JObj [("function", JStr "subscribe")])
  else if String.eqb frame (command_frame "shout") then
    inr (JObj [("function", JStr "shout")])
  else if String.eqb frame "[]" then inr (JArr [])
  else inl JSONDecodeError.

(** [bytes.decode('utf-8')] for the examples: the bytes are ASCII. *)
Definition sample_decode (b : list Byte.byte) : Exn + string :=
  inr (string_of_list_byte b).

(** The outcome of a method with the events [tr] put in front of its own. *)
Definition prepend {A} (tr : list Event) (out : list Event * PubSub * (Exn + A))
  : list Event * PubSub * (Exn + A) :=
  (tr ++ out.1.1, out.1.2, out.2).

(** The two commands that change the subscription set, with the raw path
    they are sent with, and the state a handler is in after a sequence of
    them. *)
Inductive Command : Type :=
  | Subscribe (raw : string)
  | Unsubscribe (raw : string).

Definition run_command (urlparse : string → Exn + Urllib.ParseResult)
    (check_path : string → Eff bool) (st : PubSub)
    (c : Command) : PubSub :=
  match c with
  | Subscribe raw =>
      state_after (PubSub.subscribe urlparse check_path [("path", JStr raw)]) st
  | Unsubscribe raw =>
      state_after (PubSub.unsubscribe urlparse [("path", JStr raw)]) st
  end.

Definition after_commands (urlparse : string → Exn + Urllib.ParseResult)
    (check_path : string → Eff bool)
    (commands : list Command) : PubSub :=
  fold_left (run_command urlparse check_path) commands PubSub.fresh.

(** The payload of the end-to-end example, what a [json.loads] makes of it,
    and the redis message that carries it on a channel. *)
Definition tomato_payload : list (string * json) :=
  [("data", JObj [("name", JStr "tomato")]); ("type", JStr "CREATE")].

Definition tomato_loads (raw : string) : Exn + json :=
  if String.eqb raw "tomato created" then inr (JObj tomato_payload)
  else inl JSONDecodeError.

Definition tomato_message (channel : string) : RedisMessage :=
  {| r_type := "message";
     r_channel := list_byte_of_string channel;
     r_data := inl (list_byte_of_string "tomato created") |}.

(** The path [__init__] works with: the request path without its trailing
    slashes and without a final ['/ws']. *)
Definition initial_path (path : string) : string :=
  let path := Py.rstrip "/" path in
  if Py.endswith "/ws" path then Py.drop_last 3 path else path.

(** None of the characters [chars] occurs in [s]. *)
Definition lacks (chars : list ascii) (s : string) : Prop :=
  ∀ c, c ∈ chars → Py.contains c s = false.

(** ** The shared redis pool *)

Section RedisPool.

(** The type of a connection pool, [redis.ConnectionPool.from_url], and
    [config['redis_uri'].get()]. *)
Variable Pool : Type.
Variable from_url : string → Pool.
Variable redis_uri : string.

(** [get_redis_pool], create and reuse a redis pool: from the class
    attribute [_redis_pool] before to the attribute after, the pool
    returned, and the urls [from_url] was called with. *)
Definition get_redis_pool (_redis_pool : option Pool)
  : option Pool * Pool * list string :=
  match _redis_pool with
  | None =>
      let pool := from_url redis_uri in
      (Some pool, pool, [redis_uri])
  | Some pool => (Some pool, pool, [])
  end.

(** [n] calls of [get_redis_pool] one after the other, as [n] new handlers
    make them: the attribute afterwards, the pools returned and the urls
    [from_url] was called with. *)
Fixpoint get_redis_pool_times (n : nat) (_redis_pool : option Pool)
  : option Pool * list Pool * list string :=
  match n with
  | O => (_redis_pool, [], [])
  | S n' =>
      let '(attr, pool, urls) := get_redis_pool _redis_pool in
      let '(attr', pools, urls') := get_redis_pool_times n' attr in
      (attr', pool :: pools, urls ++ urls')
  end.

End RedisPool.

(** ** Polling the redis handle *)

(** [get_redis_message], over the results of the successive calls of
    [self.p.get_message()] ([None] when nothing is there): the number of
    times it slept, the message it returned ([None] when the polls run out
    before one has come, the coroutine still waiting), and the polls it has
    not made. *)
Fixpoint get_redis_message (polls : list (option RedisMessage))
  : nat * option RedisMessage * list (option RedisMessage) :=
  match polls with
  | [] => (O, None, [])
  | Some message :: polls' => (O, Some message, polls')
  | None :: polls' =>
      let '(sleeps, message, rest) := get_redis_message polls' in
      (S sleeps, message, rest)
  end.

(** ** More vocabulary *)

(** The set and the handle agree: every path of [subscriptions] is a
    channel of [p] and the other way round. *)
Definition in_step (st : PubSub) : Prop := subscriptions st = p st.

(** A validity check that does nothing to the websocket: the events it
    causes are probes. *)
Definition is_probe (ev : Event) : Prop := ∃ url, ev = HttpGet url.

Definition only_probes (check_path : string → Eff bool) : Prop :=
  ∀ path, Forall is_probe (check_path path).1.

(** More generally, a check all of whose events are of the kind [Q]. *)
Definition check_events (Q : Event → Prop) (check_path : string → Eff bool)
  : Prop :=
  ∀ path, Forall Q (check_path path).1.

(** The close call. *)
Definition is_close (ev : Event) : Prop := ∃ code reason, ev = WsClose code reason.

(** The task [create] hands to the loop: the [subscribe] that [__init__]
    scheduled, if any, its exception kept to itself. *)
Definition scheduled (urlparse : string → Exn + Urllib.ParseResult)
    (check_path : string → Eff bool)
    (first : option (list (string * json))) : M unit :=
  match first with
  | Some message => PubSub.as_task (PubSub.subscribe urlparse check_path message);; mret tt
  | None => mret tt
  end.

(** At most one frame sent, and nothing else. *)
Definition at_most_one_reply (tr : list Event) : Prop :=
  tr = [] ∨ ∃ v, tr = [WsSend v].

(** The shape of what a method does for one frame or one redis message:
    events of the validity check first (of the kind [Q]), then at most one
    frame sent, and none if it raises; a set and a handle that agreed still
    agree. *)
Definition orderly (Q : Event → Prop)
    (out : list Event * PubSub * (Exn + unit)) (st : PubSub) : Prop :=
  (∃ probes replies,
      out.1.1 = probes ++ replies ∧ Forall Q probes
      ∧ at_most_one_reply replies ∧ (out.2 = inr tt ∨ replies = []))
  ∧ (in_step st → in_step out.1.2).

(** What [subscribe] and [unsubscribe] do once they have the canonical
    path. *)
Definition subscribe_path (check_path : string → Eff bool) (path : PathValue)
  : M unit :=
  st ← get_state;
  if negb (PubSub.is_subscribed path st) then
    valid ← PubSub.is_valid check_path path;
    if negb valid then
      send (error_reply ("Invalid path: " +:+ format_path path))
    else
      put_state {| subscriptions := {[format_path path]} ∪ subscriptions st;
                   p := {[format_path path]} ∪ p st |}
  else
    send (error_reply ("Already subscribed to path: " +:+ format_path path)).

Definition unsubscribe_path (path : PathValue) : M unit :=
  st ← get_state;
  if PubSub.is_subscribed path st then
    put_state {| subscriptions := subscriptions st ∖ {[format_path path]};
                 p := p st ∖ {[format_path path]} |}
  else
    send (error_reply ("Not subscribed to path: " +:+ format_path path)).

(** The events of the main loop: an event of the validity check (of the
    kind [Q]), a [recv] started, a frame sent. *)
Definition loop_event (Q : Event → Prop) (ev : Event) : Prop :=
  Q ev ∨ ev = WsRecv ∨ ∃ v, ev = WsSend v.

(** A coroutine that causes events of the main loop only and keeps the set
    and the handle in step. *)
Definition tame (Q : Event → Prop) {A} (c : M A) : Prop :=
  ∀ st, Forall (loop_event Q) (c st).1.1 ∧ (in_step st → in_step (c st).1.2).

(** ** Proof automation *)

(** Unfolds the plumbing of [M], leaving the code of a method. *)
Ltac run_M :=
  unfold mbind, M_bind, mret, M_ret, lift_exn, lift_eff, get_state, put_state,
    send, emit, raise; simpl.

(** Membership in a list that is written out. *)
Ltac in_list :=
  repeat first [apply list_elem_of_here | apply list_elem_of_further].

(** [lacks chars s] for a [chars] and an [s] that are written out. *)
Ltac lacks_by_cases :=
  let c := fresh "c" in
  let Hc := fresh "Hc" in
  intros c Hc;
  repeat (apply elem_of_cons in Hc as [->|Hc]; [reflexivity|]);
  by apply elem_of_nil in Hc.

(** * Properties *)

(** ** [parse_path] on examples *)

Example parse_path_http :
  parse_path urlparse311 "http://localhost:5000/api/salads/123?children=1#top"
  = inr "/api/salads/123".
Proof. reflexivity. Qed.

Example parse_path_plain : parse_path urlparse311 "/api/salads/123" = inr "/api/salads/123".
Proof. reflexivity. Qed.

Example parse_path_params : parse_path urlparse311 "/api/salads;x=1" = inr "/api/salads".
Proof. reflexivity. Qed.

Example parse_path_no_slashes : parse_path urlparse311 "localhost:5000/api" = inr "5000/api".
Proof. reflexivity. Qed.

Example parse_path_ipv6 : parse_path urlparse311 "//[::1/api" = inl (ValueError "Invalid IPv6 URL").
Proof. reflexivity. Qed.

(** Tabs, carriage returns and line feeds are taken out of the url, and
    spaces and control characters off its front, before it is split. *)
Example parse_path_tab :
  parse_path urlparse311 ("/api/sa" +:+ String "009" "lads") = inr "/api/salads".
Proof. reflexivity. Qed.

Example parse_path_tab_to_netloc :
  urlparse311 (String "/" (String "009" "/x/y"))
  = inr (Urllib.mkParseResult EmptyString "x" "/y" EmptyString EmptyString
           EmptyString).
Proof. reflexivity. Qed.

Example parse_path_leading_space : parse_path urlparse311 " /api" = inr "/api".
Proof. reflexivity. Qed.

(** All six parts of some urls. *)
Example urlparse_parts :
  urlparse311
  <$> ["http://localhost:5000/api/salads;v=1"; "localhost:5000";
       "a/b;c/d;e"; "HTTP://h/p;q"; "1http://h/p"; "http:/p/q;r?s"; "//h?q/p";
       "http://h#f?q"]
  = [inr (Urllib.mkParseResult "http" "localhost:5000" "/api/salads" "v=1"
            EmptyString EmptyString);
     inr (Urllib.mkParseResult "localhost" EmptyString "5000" EmptyString
            EmptyString EmptyString);
     inr (Urllib.mkParseResult EmptyString EmptyString "a/b;c/d" "e"
            EmptyString EmptyString);
     inr (Urllib.mkParseResult "http" "h" "/p" "q" EmptyString EmptyString);
     inr (Urllib.mkParseResult EmptyString EmptyString "1http://h/p"
            EmptyString EmptyString EmptyString);
     inr (Urllib.mkParseResult "http" EmptyString "/p/q" "r" "s" EmptyString);
     inr (Urllib.mkParseResult EmptyString "h" EmptyString EmptyString "q/p"
            EmptyString);
     inr (Urllib.mkParseResult "http" "h" EmptyString EmptyString EmptyString
            "f?q")].
Proof. reflexivity. Qed.

(** A host in square brackets: nothing may stand before the brackets and
    only a port after them, and what is between them goes to
    [_check_bracketed_host]. *)
Example urlparse_brackets_misplaced (check_bracketed_host nfkc_check : string → option Exn) :
  Urllib311.urlparse check_bracketed_host nfkc_check
  <$> ["http://a[::1]/x"; "http://[::1]x/p"; "http://x]y[/p"]
  = [inl (ValueError "Invalid IPv6 URL"); inl (ValueError "Invalid IPv6 URL");
     inl (ValueError "Invalid IPv6 URL")].
Proof. reflexivity. Qed.

Example urlparse_bracketed_host (check_bracketed_host nfkc_check : string → option Exn) :
  Urllib311.urlparse check_bracketed_host nfkc_check "http://u@[::1]:8/p?q#f"
  = match check_bracketed_host "::1" with
    | Some e => inl e
    | None => inr (Urllib.mkParseResult "http" "u@[::1]:8" "/p" EmptyString
                     "q" "f")
    end.
Proof. vm_compute. by destruct (check_bracketed_host _). Qed.

Example urlparse_brackets_in_userinfo (check_bracketed_host nfkc_check : string → option Exn) :
  Urllib311.urlparse check_bracketed_host nfkc_check "http://u[v]@h:80/p"
  = match check_bracketed_host "h" with
    | Some e => inl e
    | None => inr (Urllib.mkParseResult "http" "u[v]@h:80" "/p" EmptyString
                     EmptyString EmptyString)
    end.
Proof. vm_compute. by destruct (check_bracketed_host _). Qed.

(** [sample_urlparse] gives what the library gives on the urls that the
    examples below use. *)
Example sample_urlparse_as_library :
  Forall (λ url, sample_urlparse url = urlparse311 url)
    ["//[::1/api"; "/salads"; "/api/salads"; "/api/salads/"; "/api/salads/9";
     "/api/salads/10"; "/api/salads/123"; "/api/salads/ws";
     "/api/salads?children=1"; "http://localhost:5000/api/salads";
     "http://localhost:5000/api/salads/";
     "http://localhost:5000/api/salads/10";
     "http://localhost:5000/api/salads/123";
     "http://localhost:5000/api/salads/?children=1"].
Proof. repeat constructor. Qed.


(** ** The Python string helpers *)

Lemma lstrip_head (c : ascii) (s : string) :
  Py.lstrip c s = EmptyString
  ∨ ∃ a s', Py.lstrip c s = String a s' ∧ Ascii.eqb a c = false.
Proof.
  induction s as [|a s IH]; simpl; [by left|].
  destruct (Ascii.eqb a c) eqn:Hac; [done|].
  right. by exists a, s.
Qed.

(** What [lstrip('/')] returns never starts with a slash, so it never starts
    with ['/api'] either. *)
Lemma lstrip_not_slash_api (path : string) :
  Py.startswith "/api" (Py.lstrip "/" path) = false.
Proof.
  destruct (lstrip_head "/" path) as [->|(a & s' & -> & Ha)]; [done|].
  cbn [Py.startswith]. rewrite (Ascii.eqb_sym "/" a), Ha. done.
Qed.

(** ** [is_valid_app_path] *)

(** The test on the prefix fails for every path: no probe is sent and the
    answer is [False], whatever the resource server would say. *)
Lemma is_valid_app_path_constant host port requests_get (path : string) :
  is_valid_app_path host port requests_get path = ([], inr false).
Proof. unfold is_valid_app_path. by rewrite lstrip_not_slash_api. Qed.

(** C1, at a path under the reserved prefix that the resource server answers
    with status 200: [is_valid_app_path] returns [False] and sends no probe,
    where the claim has it probe and return [True]. *)
Theorem is_valid_app_path_rejects_api_path :
  is_valid_app_path "localhost" "5000" (λ _, inr 200) "/api/salads/123"
  = ([], inr false).
Proof. reflexivity. Qed.

(** ** The commands [subscribe] and [unsubscribe] *)

Section Commands.

Variable urlparse : string → Exn + Urllib.ParseResult.
Variable check_path : string → Eff bool.

Lemma subscribe_member message raw path st :
  has_path message raw → parse_path urlparse raw = inr path →
  path ∈ subscriptions st →
  PubSub.subscribe urlparse check_path message st
  = ([WsSend (JObj [("error", JStr ("Already subscribed to path: " +:+ path))])], st, inr tt).
Proof.
  intros Hm Hp Hin. unfold PubSub.subscribe, dict_getitem. rewrite Hm.
  run_M. rewrite Hp. simpl. by rewrite bool_decide_eq_true_2.
Qed.

Lemma subscribe_invalid message raw path st tr :
  has_path message raw → parse_path urlparse raw = inr path →
  path ∉ subscriptions st → check_path path = (tr, inr false) →
  PubSub.subscribe urlparse check_path message st
  = (tr ++ [WsSend (JObj [("error", JStr ("Invalid path: " +:+ path))])], st, inr tt).
Proof.
  intros Hm Hp Hin Hc. unfold PubSub.subscribe, dict_getitem. rewrite Hm.
  run_M. rewrite Hp. simpl. rewrite bool_decide_eq_false_2 by done.
  simpl. by rewrite Hc.
Qed.

Lemma subscribe_valid message raw path st tr :
  has_path message raw → parse_path urlparse raw = inr path →
  path ∉ subscriptions st → check_path path = (tr, inr true) →
  PubSub.subscribe urlparse check_path message st
  = (tr ++ [],
     {| subscriptions := {[path]} ∪ subscriptions st; p := {[path]} ∪ p st |},
     inr tt).
Proof.
  intros Hm Hp Hin Hc. unfold PubSub.subscribe, dict_getitem. rewrite Hm.
  run_M. rewrite Hp. simpl. rewrite bool_decide_eq_false_2 by done.
  simpl. by rewrite Hc.
Qed.

Lemma subscribe_check_raises message raw path st tr e :
  has_path message raw → parse_path urlparse raw = inr path →
  path ∉ subscriptions st → check_path path = (tr, inl e) →
  PubSub.subscribe urlparse check_path message st = (tr, st, inl e).
Proof.
  intros Hm Hp Hin Hc. unfold PubSub.subscribe, dict_getitem. rewrite Hm.
  run_M. rewrite Hp. simpl. rewrite bool_decide_eq_false_2 by done.
  simpl. by rewrite Hc.
Qed.

Lemma subscribe_parse_raises message raw st e :
  has_path message raw → parse_path urlparse raw = inl e →
  PubSub.subscribe urlparse check_path message st = ([], st, inl e).
Proof.
  intros Hm Hp. unfold PubSub.subscribe, dict_getitem. rewrite Hm.
  run_M. by rewrite Hp.
Qed.

Lemma unsubscribe_member message raw path st :
  has_path message raw → parse_path urlparse raw = inr path →
  path ∈ subscriptions st →
  PubSub.unsubscribe urlparse message st
  = ([],
     {| subscriptions := subscriptions st ∖ {[path]}; p := p st ∖ {[path]} |},
     inr tt).
Proof.
  intros Hm Hp Hin. unfold PubSub.unsubscribe, dict_getitem. rewrite Hm.
  run_M. rewrite Hp. simpl. by rewrite bool_decide_eq_true_2.
Qed.

Lemma unsubscribe_not_member message raw path st :
  has_path message raw → parse_path urlparse raw = inr path →
  path ∉ subscriptions st →
  PubSub.unsubscribe urlparse message st
  = ([WsSend (JObj [("error", JStr ("Not subscribed to path: " +:+ path))])], st, inr tt).
Proof.
  intros Hm Hp Hin. unfold PubSub.unsubscribe, dict_getitem. rewrite Hm.
  run_M. rewrite Hp. simpl. by rewrite bool_decide_eq_false_2.
Qed.

Lemma unsubscribe_parse_raises message raw st e :
  has_path message raw → parse_path urlparse raw = inl e →
  PubSub.unsubscribe urlparse message st = ([], st, inl e).
Proof.
  intros Hm Hp. unfold PubSub.unsubscribe, dict_getitem. rewrite Hm.
  run_M. by rewrite Hp.
Qed.

End Commands.

(** C4 as stated fails at a raw path that [urlparse] rejects: [subscribe]
    raises before it looks at the subscription set, so that no error reply
    is sent and nothing is registered either. *)
Lemma subscribe_unparsable_counterexample :
  ¬ (∀ (check_path : string → Eff bool) (raw : string) (st : PubSub),
       (∃ text,
           WsSend (JObj [("error", JStr text)])
           ∈ events_of (PubSub.subscribe sample_urlparse check_path
                          [("path", JStr raw)]) st)
       ∨ state_after (PubSub.subscribe sample_urlparse check_path
                        [("path", JStr raw)]) st ≠ st).
Proof.
  intros H.
  destruct (H module_check "//[::1/api" PubSub.fresh) as [[text Hin]|Hne].
  - by apply elem_of_nil in Hin.
  - by apply Hne.
Qed.

Example subscribe_unparsable :
  PubSub.subscribe sample_urlparse module_check [("path", JStr "//[::1/api")]
    PubSub.fresh
  = ([], PubSub.fresh, inl (ValueError "Invalid IPv6 URL")).
Proof. reflexivity. Qed.

(** C4, amended: for a raw path that [urlparse] accepts, [subscribe] looks
    the canonical path up in the subscription set first. For a member it
    sends the frame [{"error": "Already subscribed to path: <path>"}] and
    changes nothing, without running the validity check. For a path that is
    not a member and fails the check it sends
    [{"error": "Invalid path: <path>"}] and changes nothing. For a path that
    is not a member and passes, the handle is subscribed and the path added
    to the set. When the check raises, its exception leaves [subscribe] and
    nothing changes. The state changes in no other case. For a raw path that
    [urlparse] rejects, the exception of [urlparse] leaves [subscribe]:
    nothing is sent and nothing changes. *)
Theorem subscribe_membership_then_validity
    (urlparse : string → Exn + Urllib.ParseResult)
    (check_path : string → Eff bool) message raw st :
  has_path message raw →
  (∀ e, parse_path urlparse raw = inl e →
        PubSub.subscribe urlparse check_path message st = ([], st, inl e))
  ∧ ∀ path, parse_path urlparse raw = inr path →
      (path ∈ subscriptions st →
         PubSub.subscribe urlparse check_path message st
         = ([WsSend (JObj [("error",
                            JStr ("Already subscribed to path: " +:+ path))])],
            st, inr tt))
      ∧ (path ∉ subscriptions st → ∀ tr, check_path path = (tr, inr false) →
         PubSub.subscribe urlparse check_path message st
         = (tr ++ [WsSend (JObj [("error", JStr ("Invalid path: " +:+ path))])],
            st, inr tt))
      ∧ (path ∉ subscriptions st → ∀ tr, check_path path = (tr, inr true) →
         PubSub.subscribe urlparse check_path message st
         = (tr ++ [],
            {| subscriptions := {[path]} ∪ subscriptions st;
               p := {[path]} ∪ p st |},
            inr tt))
      ∧ (path ∉ subscriptions st → ∀ tr e, check_path path = (tr, inl e) →
         PubSub.subscribe urlparse check_path message st = (tr, st, inl e))
      ∧ (state_after (PubSub.subscribe urlparse check_path message) st ≠ st →
         (path ∉ subscriptions st) ∧ (∃ tr, check_path path = (tr, inr true))).
Proof.
  intros Hm. split.
  { intros e Hp. by apply subscribe_parse_raises with raw. }
  intros path Hp. split; [|split; [|split; [|split]]].
  - by apply subscribe_member with raw.
  - intros. by apply subscribe_invalid with raw.
  - intros. by apply subscribe_valid with raw.
  - intros. by apply subscribe_check_raises with raw path.
  - intros Hne.
    destruct (decide (path ∈ subscriptions st)) as [Hin|Hin].
    { exfalso. apply Hne. unfold state_after.
      by rewrite (subscribe_member _ _ _ _ _ _ Hm Hp Hin). }
    split; [done|].
    destruct (check_path path) as [tr [e|[|]]] eqn:Hc.
    + exfalso. apply Hne. unfold state_after.
      by rewrite (subscribe_check_raises _ _ _ _ _ _ _ _ Hm Hp Hin Hc).
    + by exists tr.
    + exfalso. apply Hne. unfold state_after.
      by rewrite (subscribe_invalid _ _ _ _ _ _ _ Hm Hp Hin Hc).
Qed.

(** The cases at work: with a check that accepts, a first [subscribe] of an
    url registers its path, and a second one is answered with the error. *)
Lemma subscribe_membership_then_validity_witness :
  PubSub.subscribe sample_urlparse accept_all
    [("path", JStr "http://localhost:5000/api/salads/123")] PubSub.fresh
  = ([], subscribed_to "/api/salads/123", inr tt)
  ∧ PubSub.subscribe sample_urlparse accept_all
      [("path", JStr "http://localhost:5000/api/salads/123")]
      (subscribed_to "/api/salads/123")
    = ([WsSend (JObj [("error",
                       JStr "Already subscribed to path: /api/salads/123")])],
       subscribed_to "/api/salads/123", inr tt).
Proof.
  split.
  - destruct (subscribe_membership_then_validity sample_urlparse accept_all
                [("path", JStr "http://localhost:5000/api/salads/123")]
                "http://localhost:5000/api/salads/123" PubSub.fresh eq_refl)
      as [_ Hcases].
    destruct (Hcases "/api/salads/123" eq_refl) as (_ & _ & Hvalid & _).
    assert (Hnew : "/api/salads/123" ∉ subscriptions PubSub.fresh)
      by apply not_elem_of_empty.
    rewrite (Hvalid Hnew [] eq_refl). unfold subscribed_to. simpl.
    by rewrite !(right_id_L ∅ (∪)).
  - destruct (subscribe_membership_then_validity sample_urlparse accept_all
                [("path", JStr "http://localhost:5000/api/salads/123")]
                "http://localhost:5000/api/salads/123"
                (subscribed_to "/api/salads/123") eq_refl)
      as [_ Hcases].
    destruct (Hcases "/api/salads/123" eq_refl) as (Hmember & _).
    apply Hmember. simpl. by apply elem_of_singleton.
Defined.

(** C5 as stated fails at a raw path that [urlparse] rejects: [unsubscribe]
    raises before it looks at the subscription set, so that it neither
    sends the "Not subscribed" error nor removes anything. *)
Lemma unsubscribe_unparsable_counterexample :
  ¬ (∀ (raw : string) (st : PubSub),
       (∃ text,
           WsSend (JObj [("error", JStr text)])
           ∈ events_of (PubSub.unsubscribe sample_urlparse [("path", JStr raw)]) st)
       ∨ state_after (PubSub.unsubscribe sample_urlparse [("path", JStr raw)]) st
         ≠ st).
Proof.
  intros H.
  destruct (H "//[::1/api" PubSub.fresh) as [[text Hin]|Hne].
  - by apply elem_of_nil in Hin.
  - by apply Hne.
Qed.

Example unsubscribe_unparsable :
  PubSub.unsubscribe sample_urlparse [("path", JStr "//[::1/api")]
    (subscribed_to "/api/salads")
  = ([], subscribed_to "/api/salads", inl (ValueError "Invalid IPv6 URL")).
Proof. reflexivity. Qed.

(** C5, amended: for a raw path that [urlparse] accepts, [unsubscribe] of a
    canonical path that is not a member sends the frame
    [{"error": "Not subscribed to path: <path>"}] and leaves the set and the
    handle as they are; of a member, it unsubscribes the handle from the
    channel and removes the path from the set. For a raw path that
    [urlparse] rejects, the exception of [urlparse] leaves [unsubscribe]:
    nothing is sent and nothing changes. *)
Theorem unsubscribe_membership
    (urlparse : string → Exn + Urllib.ParseResult) message raw st :
  has_path message raw →
  (∀ e, parse_path urlparse raw = inl e →
        PubSub.unsubscribe urlparse message st = ([], st, inl e))
  ∧ ∀ path, parse_path urlparse raw = inr path →
      (path ∉ subscriptions st →
         PubSub.unsubscribe urlparse message st
         = ([WsSend (JObj [("error", JStr ("Not subscribed to path: " +:+ path))])],
            st, inr tt))
      ∧ (path ∈ subscriptions st →
         PubSub.unsubscribe urlparse message st
         = ([],
            {| subscriptions := subscriptions st ∖ {[path]};
               p := p st ∖ {[path]} |},
            inr tt)).
Proof.
  intros Hm. split.
  { intros e Hp. by apply unsubscribe_parse_raises with raw. }
  intros path Hp. split; intros Hin.
  - by apply unsubscribe_not_member with raw.
  - by apply unsubscribe_member with raw.
Qed.

Lemma unsubscribe_membership_witness :
  PubSub.unsubscribe sample_urlparse
    [("path", JStr "http://localhost:5000/api/salads")] PubSub.fresh
  = ([WsSend (JObj [("error", JStr "Not subscribed to path: /api/salads")])],
     PubSub.fresh, inr tt).
Proof.
  destruct (unsubscribe_membership sample_urlparse
              [("path", JStr "http://localhost:5000/api/salads")]
              "http://localhost:5000/api/salads" PubSub.fresh eq_refl)
    as [_ Hcases].
  destruct (Hcases "/api/salads" eq_refl) as [Hout _].
  apply Hout. simpl. apply not_elem_of_empty.
Defined.

(** ** Subscribe, then unsubscribe *)

Lemma add_then_remove (x : string) (X : gset string) :
  x ∉ X → ({[x]} ∪ X) ∖ {[x]} = X.
Proof.
  intros Hx. apply set_eq. intros y.
  rewrite elem_of_difference, elem_of_union, !elem_of_singleton.
  split.
  - intros [[->|Hy] Hne]; done.
  - intros Hy. split; [by right|]. intros ->. done.
Qed.

(** C6 as stated fails on a path that is already subscribed: [subscribe]
    answers with the "Already subscribed" error, and [unsubscribe] then
    removes the path that was there before. *)
Lemma subscribe_unsubscribe_member_counterexample :
  ¬ (∀ (check_path : string → Eff bool) (st : PubSub) (raw : string),
       subscriptions
         (state_after (PubSub.unsubscribe sample_urlparse [("path", JStr raw)])
            (state_after (PubSub.subscribe sample_urlparse check_path [("path", JStr raw)]) st))
       = subscriptions st).
Proof.
  intros H.
  specialize (H module_check (subscribed_to "/api/salads") "/api/salads").
  unfold state_after in H.
  rewrite (subscribe_member sample_urlparse module_check _ "/api/salads" "/api/salads") in H
    by (done || by apply elem_of_singleton).
  rewrite (unsubscribe_member _ _ "/api/salads" "/api/salads") in H
    by (done || by apply elem_of_singleton).
  simpl in H.
  assert (Hin : "/api/salads" ∈ ({["/api/salads"]} : gset string))
    by by apply elem_of_singleton.
  rewrite <- H in Hin. set_solver.
Qed.

(** C6, amended: from a state in which the canonical path is not yet a
    member, [subscribe] followed by [unsubscribe] of the same path leaves
    the subscription set as it was, whatever the validity check answers. *)
Theorem subscribe_unsubscribe_restores (urlparse : string → Exn + Urllib.ParseResult)
    (check_path : string → Eff bool) message raw st :
  has_path message raw →
  (∀ path, parse_path urlparse raw = inr path → path ∉ subscriptions st) →
  subscriptions
    (state_after (PubSub.unsubscribe urlparse message)
       (state_after (PubSub.subscribe urlparse check_path message) st))
  = subscriptions st.
Proof.
  intros Hm Hnew. unfold state_after.
  destruct (parse_path urlparse raw) as [e|path] eqn:Hp.
  { rewrite (subscribe_parse_raises _ _ _ _ _ _ Hm Hp). simpl.
    by rewrite (unsubscribe_parse_raises _ _ _ _ _ Hm Hp). }
  specialize (Hnew path eq_refl).
  destruct (check_path path) as [tr [e|[|]]] eqn:Hc.
  - rewrite (subscribe_check_raises _ _ _ _ _ _ _ _ Hm Hp Hnew Hc). simpl.
    by rewrite (unsubscribe_not_member _ _ _ _ _ Hm Hp Hnew).
  - rewrite (subscribe_valid _ _ _ _ _ _ _ Hm Hp Hnew Hc). simpl.
    rewrite (unsubscribe_member _ _ _ _ _ Hm Hp) by set_solver.
    simpl. by apply add_then_remove.
  - rewrite (subscribe_invalid _ _ _ _ _ _ _ Hm Hp Hnew Hc). simpl.
    by rewrite (unsubscribe_not_member _ _ _ _ _ Hm Hp Hnew).
Qed.

Lemma subscribe_unsubscribe_restores_witness :
  subscriptions
    (state_after (PubSub.unsubscribe sample_urlparse [("path", JStr "/api/salads/123")])
       (state_after
          (PubSub.subscribe sample_urlparse accept_all [("path", JStr "/api/salads/123")])
          (subscribed_to "/api/salads")))
  = {["/api/salads"]}.
Proof.
  apply (subscribe_unsubscribe_restores sample_urlparse accept_all
           [("path", JStr "/api/salads/123")] "/api/salads/123"
           (subscribed_to "/api/salads") eq_refl).
  intros path Hpath.
  assert (path = "/api/salads/123") as -> by (by injection Hpath).
  simpl. by apply not_elem_of_singleton.
Defined.

(** The state of the counterexample is the one a first [subscribe] leaves
    when the check accepts the path. *)
Example subscribed_to_reached :
  after_commands sample_urlparse accept_all [Subscribe "/api/salads"] = subscribed_to "/api/salads".
Proof. vm_compute. reflexivity. Qed.

(** X2: With the check of the module itself no command ever changes the state:
    [is_valid_app_path] answers [False] for every path, so [subscribe] never
    registers a channel and [unsubscribe] finds none to drop. *)
Lemma module_check_never_subscribes (urlparse : string → Exn + Urllib.ParseResult) host port requests_get commands :
  after_commands urlparse (is_valid_app_path host port requests_get) commands
  = PubSub.fresh.
Proof.
  unfold after_commands.
  induction commands as [|c commands IH] using rev_ind; [done|].
  rewrite fold_left_app. simpl. rewrite IH.
  destruct c as [raw|raw]; unfold run_command, state_after.
  - destruct (parse_path urlparse raw) as [e|path] eqn:Hp.
    + by rewrite (subscribe_parse_raises _ _ [("path", JStr raw)] raw _ e).
    + rewrite (subscribe_invalid _ _ [("path", JStr raw)] raw path _ []);
        [done|done|done|apply not_elem_of_empty
        |apply is_valid_app_path_constant].
  - destruct (parse_path urlparse raw) as [e|path] eqn:Hp.
    + by rewrite (unsubscribe_parse_raises _ [("path", JStr raw)] raw _ e).
    + rewrite (unsubscribe_not_member _ [("path", JStr raw)] raw path);
        [done|done|done|apply not_elem_of_empty].
Qed.

(** ** The consumer branch *)

Section Consumer.

Variable urlparse : string → Exn + Urllib.ParseResult.
Variable check_path : string → Eff bool.
Variable json_loads : string → Exn + json.
Variable decode_utf8 : list Byte.byte → Exn + string.

Lemma known_function_none d :
  (∀ name, name ∈ PubSub.functions → dict_get d "function" ≠ Some (JStr name)) →
  PubSub.known_function (dict_get d "function") = None.
Proof.
  intros Hd. unfold PubSub.known_function.
  destruct (dict_get d "function") as [[| | | |name| |]|]; try done.
  case_bool_decide as Hin; [|done]. by destruct (Hd name Hin).
Qed.

Lemma consumer_rejected frame text st :
  Rejected json_loads frame text →
  PubSub.consumer urlparse check_path json_loads frame st
  = ([WsSend (JObj [("error", JStr text)])], st, inr tt).
Proof.
  intros [e He|v Hv Hnd|d Hd Hf]; unfold PubSub.consumer.
  - by rewrite He.
  - rewrite Hv. destruct v; try done. by destruct (Hnd items).
  - rewrite Hd, (known_function_none _ Hf). done.
Qed.

(** One turn of the loop that finds a frame received and whose consumer
    returns: the loop goes on to its next turn. *)
Lemma handle_inbound_returns frame readies st tr st' :
  PubSub.consumer urlparse check_path json_loads frame st = (tr, st', inr tt) →
  PubSub.handle urlparse check_path json_loads decode_utf8 (mret tt)
    (Inbound (inr frame) :: readies) st
  = prepend (WsRecv :: tr)
      (PubSub.handle urlparse check_path json_loads decode_utf8 (mret tt) readies st').
Proof.
  intros Hc. cbn [PubSub.handle]. unfold PubSub.finish. run_M.
  rewrite Hc.
  destruct (PubSub.handle urlparse _ _ _ _ readies st') as [[tr' st''] r].
  unfold prepend. simpl. done.
Qed.

(** One turn that finds a frame received and whose consumer raises: the
    exception leaves [handle]. *)
Lemma handle_inbound_raises frame readies st tr st' e :
  PubSub.consumer urlparse check_path json_loads frame st = (tr, st', inl e) →
  PubSub.handle urlparse check_path json_loads decode_utf8 (mret tt)
    (Inbound (inr frame) :: readies) st
  = (WsRecv :: tr, st', inl e).
Proof.
  intros Hc. cbn [PubSub.handle]. unfold PubSub.finish. run_M.
  by rewrite Hc.
Qed.

End Consumer.

(** C7: a frame that is not JSON, or is JSON but not a dict, or is a dict
    whose ['function'] is missing or not one of [ls], [subscribe] and
    [unsubscribe], is answered with one [{"error": ...}] frame, for the last
    kind the one that lists the three names; the consumer returns, the
    state with the subscription set is what it was, and the loop of [handle]
    goes on to serve the turns that follow. *)
Theorem consumer_rejects_malformed_frame (urlparse : string → Exn + Urllib.ParseResult)
    (check_path : string → Eff bool) (json_loads : string → Exn + json)
    (decode_utf8 : list Byte.byte → Exn + string) frame text st :
  Rejected json_loads frame text →
  PubSub.consumer urlparse check_path json_loads frame st
  = ([WsSend (JObj [("error", JStr text)])], st, inr tt)
  ∧ ∀ readies,
      PubSub.handle urlparse check_path json_loads decode_utf8 (mret tt)
        (Inbound (inr frame) :: readies) st
      = prepend [WsRecv; WsSend (JObj [("error", JStr text)])]
          (PubSub.handle urlparse check_path json_loads decode_utf8 (mret tt) readies st).
Proof.
  intros Hrej. split; [by apply consumer_rejected|].
  intros readies. apply handle_inbound_returns. by apply consumer_rejected.
Qed.

(** An unknown command followed by [ls]: the error, then the listing. *)
Lemma consumer_rejects_malformed_frame_witness :
  PubSub.handle sample_urlparse module_check sample_loads sample_decode (mret tt)
    [Inbound (inr (command_frame "shout")); Inbound (inr (command_frame "ls"))]
    (subscribed_to "/api/salads")
  = ([WsRecv;
      WsSend (JObj [("error", JStr "function must be one of: ls, subscribe, unsubscribe.")]);
      WsRecv; WsSend (JArr [JStr "/api/salads"]); WsRecv],
     subscribed_to "/api/salads", inr tt).
Proof.
  assert (Hrej : Rejected sample_loads (command_frame "shout")
                   "function must be one of: ls, subscribe, unsubscribe.").
  { apply rejected_function with [("function", JStr "shout")]; [reflexivity|].
    intros name Hin [= <-]. vm_compute in Hin.
    repeat (apply elem_of_cons in Hin as [Hin|Hin]; [discriminate Hin|]).
    by apply elem_of_nil in Hin. }
  destruct (consumer_rejects_malformed_frame sample_urlparse module_check sample_loads
              sample_decode _ _ (subscribed_to "/api/salads") Hrej) as [_ Hloop].
  rewrite Hloop. reflexivity.
Defined.

(** C10: a frame that loads to a dict naming [subscribe] or [unsubscribe]
    but holding no ['path'] makes the command raise [KeyError] at
    [message['path']]. Nothing is sent, and neither [consumer] nor the turn
    of the loop catches it: it leaves [handle]. *)
Theorem consumer_missing_path_raises (urlparse : string → Exn + Urllib.ParseResult)
    (check_path : string → Eff bool) (json_loads : string → Exn + json)
    (decode_utf8 : list Byte.byte → Exn + string) frame d name st :
  json_loads frame = inr (JObj d) →
  dict_get d "function" = Some (JStr name) →
  name = "subscribe" ∨ name = "unsubscribe" →
  dict_get d "path" = None →
  PubSub.consumer urlparse check_path json_loads frame st = ([], st, inl (KeyError "path"))
  ∧ ∀ readies,
      PubSub.handle urlparse check_path json_loads decode_utf8 (mret tt)
        (Inbound (inr frame) :: readies) st
      = ([WsRecv], st, inl (KeyError "path")).
Proof.
  intros Hd Hf Hname Hpath.
  assert (Hc : PubSub.consumer urlparse check_path json_loads frame st
               = ([], st, inl (KeyError "path"))).
  { unfold PubSub.consumer. rewrite Hd, Hf.
    destruct Hname as [-> | ->]; simpl;
      unfold PubSub.getattr; run_M;
      unfold PubSub.subscribe, PubSub.unsubscribe, dict_getitem;
      rewrite Hpath; reflexivity. }
  split; [done|]. intros readies.
  by rewrite (handle_inbound_raises _ _ _ _ _ _ _ _ _ _ Hc).
Qed.

Lemma consumer_missing_path_raises_witness :
  PubSub.consumer sample_urlparse module_check sample_loads (command_frame "subscribe")
    PubSub.fresh
  = ([], PubSub.fresh, inl (KeyError "path")).
Proof.
  apply (consumer_missing_path_raises sample_urlparse module_check sample_loads sample_decode
           (command_frame "subscribe") [("function", JStr "subscribe")]
           "subscribe" PubSub.fresh);
    [reflexivity | reflexivity | by left | reflexivity].
Defined.

(** ** The producer branch *)

(** C8: a redis message of type [message] on the channel [path], whose data
    loads to a dict with a ['data'] and a ['type'], is sent on as the object
    with the members [function] (the string "message"), [path], [data] and
    [type]; a message of type [subscribe] or [unsubscribe] is sent on as the
    object with the members [function] and [path] and no others. *)
Theorem producer_wire_object (json_loads : string → Exn + json)
    (decode_utf8 : list Byte.byte → Exn + string) r_message path st :
  decode_utf8 (r_channel r_message) = inr path →
  (∀ bytes raw payload data type,
     r_type r_message = "message" →
     r_data r_message = inl bytes → decode_utf8 bytes = inr raw →
     json_loads raw = inr (JObj payload) →
     dict_get payload "data" = Some data →
     dict_get payload "type" = Some type →
     PubSub.producer json_loads decode_utf8 r_message st
     = ([WsSend (JObj [("function", JStr "message"); ("path", JStr path);
                       ("data", data); ("type", type)])], st, inr tt))
  ∧ (r_type r_message = "subscribe" ∨ r_type r_message = "unsubscribe" →
     PubSub.producer json_loads decode_utf8 r_message st
     = ([WsSend (JObj [("function", JStr (r_type r_message));
                       ("path", JStr path)])], st, inr tt)).
Proof.
  intros Hch. split.
  - intros bytes raw payload data type Hty Hdata Hraw Hload Hd Ht.
    unfold PubSub.producer. run_M. rewrite Hch, Hty, Hdata, Hraw. simpl.
    rewrite Hload. simpl. unfold dict_getitem. rewrite Hd, Ht. reflexivity.
  - intros Hty. unfold PubSub.producer. run_M. rewrite Hch.
    destruct Hty as [-> | ->]; reflexivity.
Qed.

(** The end-to-end example of the specification: a CREATE event for the
    salad 123. *)
Lemma producer_wire_object_witness :
  PubSub.producer tomato_loads sample_decode (tomato_message "/api/salads/123")
    (subscribed_to "/api/salads/123")
  = ([WsSend (JObj [("function", JStr "message");
                    ("path", JStr "/api/salads/123");
                    ("data", JObj [("name", JStr "tomato")]);
                    ("type", JStr "CREATE")])],
     subscribed_to "/api/salads/123", inr tt).
Proof.
  destruct (producer_wire_object tomato_loads sample_decode
              (tomato_message "/api/salads/123") "/api/salads/123"
              (subscribed_to "/api/salads/123") eq_refl) as [Hmessage _].
  apply (Hmessage (list_byte_of_string "tomato created") "tomato created"
           tomato_payload); reflexivity.
Defined.

(** ** The command [ls] *)

(** The order of [str] that [sorted] uses, [String.le], is the lexicographic
    one over the codes of the characters. *)
Lemma str_le_lexicographic :
  (∀ s, String.le EmptyString s)
  ∧ (∀ a s, ¬ String.le (String a s) EmptyString)
  ∧ (∀ a s b t,
       String.le (String a s) (String b t)
       ↔ (N_of_ascii a < N_of_ascii b)%N ∨ (a = b ∧ String.le s t)).
Proof.
  split; [|split].
  - by intros [|b t].
  - intros a s H. exact H.
  - intros a s b t. unfold String.le, String.leb. simpl.
    destruct (Ascii.compare a b) eqn:Hab.
    + apply Ascii.compare_eq_iff in Hab as ->. split; [by right|].
      intros [Hlt|[_ H]]; [lia|done].
    + unfold Ascii.compare in Hab. apply N.compare_lt_iff in Hab.
      split; [by left|done].
    + unfold Ascii.compare in Hab. apply N.compare_gt_iff in Hab.
      split; [done|]. intros [Hlt|[-> _]]; lia.
Qed.

(** [sorted] lists the members of a set, each once, in ascending order. *)
Lemma sorted_spec (s : gset string) :
  StronglySorted String.le (PubSub.sorted s)
  ∧ NoDup (PubSub.sorted s)
  ∧ ∀ path, path ∈ PubSub.sorted s ↔ path ∈ s.
Proof.
  unfold PubSub.sorted. split; [|split].
  - apply StronglySorted_merge_sort; apply _.
  - rewrite merge_sort_Permutation. apply NoDup_elements.
  - intros path. rewrite merge_sort_Permutation. apply elem_of_elements.
Qed.

Lemma ls_reply message st :
  PubSub.ls message st
  = ([WsSend (JArr (JStr <$> PubSub.sorted (subscriptions st)))], st, inr tt).
Proof. reflexivity. Qed.

(** C9: in the state reached from a new handler by any sequence of
    [subscribe] and [unsubscribe] commands, [ls] sends one frame, the list
    of the paths of the current subscription set, each once, in ascending
    lexicographic order; the state stays as it is. *)
Theorem ls_sends_sorted_subscriptions (urlparse : string → Exn + Urllib.ParseResult)
    (check_path : string → Eff bool) (commands : list Command) message :
  let st := after_commands urlparse check_path commands in
  ∃ paths,
    PubSub.ls message st = ([WsSend (JArr (JStr <$> paths))], st, inr tt)
    ∧ StronglySorted String.le paths
    ∧ NoDup paths
    ∧ ∀ path, path ∈ paths ↔ path ∈ subscriptions st.
Proof.
  intros st. exists (PubSub.sorted (subscriptions st)).
  split; [apply ls_reply|apply sorted_spec].
Qed.

(** Three subscriptions made out of order, one of them dropped again: the
    order is that of the characters, not of the numbers. *)
Example ls_after_commands :
  PubSub.ls []
    (after_commands sample_urlparse accept_all
       [Subscribe "/api/salads/9"; Subscribe "http://localhost:5000/api/salads/10";
        Subscribe "/api/salads"; Unsubscribe "/api/salads"])
  = ([WsSend (JArr [JStr "/api/salads/10"; JStr "/api/salads/9"])],
     {| subscriptions := {["/api/salads/10"; "/api/salads/9"]};
        p := {["/api/salads/10"; "/api/salads/9"]} |},
     inr tt).
Proof.
  vm_compute. reflexivity.
Qed.

(** ** Set-up of a connection *)

Section Create.

Variable urlparse : string → Exn + Urllib.ParseResult.
Variable check_path : string → Eff bool.
Variable json_loads : string → Exn + json.
Variable decode_utf8 : list Byte.byte → Exn + string.

(** [handle] starts a [recv] before anything else. *)
Lemma handle_starts_recv pending readies st :
  ∃ rest st' r,
    PubSub.handle urlparse check_path json_loads decode_utf8 pending readies st
    = (WsRecv :: rest, st', r).
Proof.
  destruct readies as [|ready readies]; cbn [PubSub.handle]; run_M.
  - destruct (pending st) as [[tr st'] [e|[]]]; eauto.
  - destruct (pending st) as [[tr st'] [e|[]]]; [eauto|].
    destruct (PubSub.finish urlparse _ _ _ ready st') as [[tr' st''] [e|[]]]; [eauto|].
    destruct (PubSub.handle urlparse _ _ _ _ readies st'') as [[tr'' st3] r]. eauto.
Qed.

(** The [with] block adds nothing in front of what its body does. *)
Lemma with_self_starts body st ev rest st' r :
  body st = (ev :: rest, st', r) →
  ∃ rest' st'' r', PubSub.with_self body st = (ev :: rest', st'', r').
Proof.
  intros Hb. unfold PubSub.with_self. rewrite Hb.
  destruct r as [e|[]]; [|eauto].
  destruct (PubSub.__exit__ e st') as [[tr' st''] r']. simpl. eauto.
Qed.

Lemma init_invalid path tr st :
  check_path (initial_path path) = (tr, inr false) →
  PubSub.__init__ check_path path st
  = (tr ++ [WsClose 4000 "Invalid path."], st,
     inr (if String.eqb (initial_path path) EmptyString then None
          else Some [("path", JStr (initial_path path))])).
Proof.
  intros Hc. unfold PubSub.__init__. fold (initial_path path). run_M.
  rewrite Hc. simpl. by destruct (String.eqb (initial_path path) EmptyString).
Qed.

End Create.

(** What [create] does with an initial path that fails the validity check:
    [__init__] calls [close] with code 4000 and reason "Invalid path." and
    returns all the same, and [create] goes on into the loop of [handle],
    which starts a [recv]. *)
Lemma create_invalid_path_goes_on
    (urlparse : string → Exn + Urllib.ParseResult)
    (check_path : string → Eff bool) (json_loads : string → Exn + json)
    (decode_utf8 : list Byte.byte → Exn + string) path readies tr st :
  check_path (initial_path path) = (tr, inr false) →
  ∃ rest st' r,
    PubSub.create urlparse check_path json_loads decode_utf8 path readies st
    = (tr ++ WsClose 4000 "Invalid path." :: WsRecv :: rest, st', r).
Proof.
  intros Hc.
  unfold PubSub.create. unfold mbind at 1. unfold M_bind.
  rewrite (init_invalid _ _ _ _ Hc).
  match goal with
  | |- context [PubSub.handle urlparse _ _ _ ?pending readies] =>
      destruct (handle_starts_recv urlparse check_path json_loads decode_utf8
                  pending readies st) as (rest & st' & r & Hh);
      destruct (with_self_starts _ _ _ _ _ _ Hh) as (rest' & st'' & r' & Hw)
  end.
  rewrite Hw. exists rest', st'', r'.
  by rewrite <- (assoc_L (++)).
Qed.

(** C2, at the request path [/salads/ws], whose initial path [/salads] fails
    the validity check, followed by an [ls] frame from the client: after
    the call of [close] with code 4000 and reason "Invalid path." the
    handler starts a [recv], the [subscribe] scheduled by [__init__] sends
    the frame [{"error": "Invalid path: /salads"}], and the [ls] frame is
    answered from inside the main loop, where the claim has no other frame
    sent and the main loop never entered. *)
Theorem create_invalid_path_keeps_serving :
  PubSub.create sample_urlparse module_check sample_loads sample_decode
    "/salads/ws" [Inbound (inr (command_frame "ls"))] PubSub.fresh
  = ([WsClose 4000 "Invalid path.";
      WsRecv;
      WsSend (JObj [("error", JStr "Invalid path: /salads")]);
      WsSend (JArr []);
      WsRecv],
     PubSub.fresh, inr tt).
Proof. vm_compute. reflexivity. Qed.

(** ** The canonical path of [subscribe] and [unsubscribe] *)

Lemma append_nil_l s : EmptyString +:+ s = s.
Proof. reflexivity. Qed.

Lemma append_cons a s1 s2 : String a s1 +:+ s2 = String a (s1 +:+ s2).
Proof. reflexivity. Qed.

Lemma append_empty_r s : s +:+ EmptyString = s.
Proof. induction s as [|a s IH]; [done|]. by rewrite append_cons, IH. Qed.

Lemma length_append s1 s2 :
  String.length (s1 +:+ s2) = (String.length s1 + String.length s2)%nat.
Proof.
  induction s1 as [|a s1 IH]; [done|]. rewrite append_cons. simpl. by rewrite IH.
Qed.


Lemma contains_false c s : Py.contains c s = false ↔ Py.find c s = None.
Proof.
  unfold Py.contains. rewrite bool_decide_eq_false, <- eq_None_not_Some. done.
Qed.

Lemma contains_true c s : Py.contains c s = true ↔ is_Some (Py.find c s).
Proof. unfold Py.contains. by rewrite bool_decide_eq_true. Qed.

Lemma take_0 s : Py.take 0 s = EmptyString.
Proof. by destruct s. Qed.

Lemma take_app_plus s1 s2 k :
  Py.take (String.length s1 + k) (s1 +:+ s2) = s1 +:+ Py.take k s2.
Proof.
  induction s1 as [|a s1 IH]; [done|].
  rewrite !append_cons. simpl. by rewrite IH.
Qed.

Lemma take_app_length s1 s2 : Py.take (String.length s1) (s1 +:+ s2) = s1.
Proof.
  rewrite <- (Nat.add_0_r (String.length s1)), take_app_plus, take_0.
  apply append_empty_r.
Qed.

Lemma drop_app_length s1 s2 : Py.drop (String.length s1) (s1 +:+ s2) = s2.
Proof.
  induction s1 as [|a s1 IH]; [by destruct s2|].
  rewrite append_cons. simpl. done.
Qed.








(** So a handler subscribed to [/api/salads] is not subscribed to
    [/api/salads/], nor to [/api/salads/ws]. *)
Example unsubscribe_trailing_slash :
  PubSub.unsubscribe sample_urlparse
    [("path", JStr "http://localhost:5000/api/salads/")]
    (subscribed_to "/api/salads")
  = ([WsSend (JObj [("error", JStr "Not subscribed to path: /api/salads/")])],
     subscribed_to "/api/salads", inr tt).
Proof. reflexivity. Qed.

Example unsubscribe_ws_suffix :
  PubSub.unsubscribe sample_urlparse [("path", JStr "/api/salads/ws")]
    (subscribed_to "/api/salads")
  = ([WsSend (JObj [("error", JStr "Not subscribed to path: /api/salads/ws")])],
     subscribed_to "/api/salads", inr tt).
Proof. reflexivity. Qed.



(** * Further properties of the module *)

(** ** [is_valid_app_path] for every configuration *)

(** X1: Whatever host and port are configured and whatever the resource server
    would answer, [is_valid_app_path] sends no request and returns [False],
    for every path. *)
Theorem is_valid_app_path_sends_no_probe host port requests_get path :
  (is_valid_app_path host port requests_get path).1 = []
  ∧ (is_valid_app_path host port requests_get path).2 = inr false.
Proof.
  unfold is_valid_app_path.
  destruct (lstrip_head "/" path) as [->|(a & s' & -> & Ha)]; [done|].
  cbn [Py.startswith]. by rewrite (Ascii.eqb_sym "/" a), Ha.
Qed.

(** ** What the commands do to the subscription set *)

Section CommandEffects.

Variable urlparse : string → Exn + Urllib.ParseResult.
Variable check_path : string → Eff bool.

Lemma unsubscribe_subscriptions message raw path st :
  has_path message raw → parse_path urlparse raw = inr path →
  subscriptions (state_after (PubSub.unsubscribe urlparse message) st)
  = subscriptions st ∖ {[path]}.
Proof.
  intros Hm Hp. unfold state_after.
  destruct (decide (path ∈ subscriptions st)) as [Hin|Hin].
  - by rewrite (unsubscribe_member _ _ _ _ _ Hm Hp Hin).
  - rewrite (unsubscribe_not_member _ _ _ _ _ Hm Hp Hin). simpl.
    apply set_eq. intros q. rewrite elem_of_difference, elem_of_singleton.
    split; [|by intros [? _]]. intros Hq. split; [done|]. by intros ->.
Qed.

(** X3: [unsubscribe] leaves the set without the canonical path, whether it was
    a member or not, and with every other path it had. *)
Theorem unsubscribe_removes_exactly message raw path st :
  has_path message raw → parse_path urlparse raw = inr path →
  (path ∉ subscriptions (state_after (PubSub.unsubscribe urlparse message) st))
  ∧ ∀ q, q ≠ path →
         (q ∈ subscriptions (state_after (PubSub.unsubscribe urlparse message) st)
          ↔ q ∈ subscriptions st).
Proof.
  intros Hm Hp. rewrite (unsubscribe_subscriptions _ _ _ _ Hm Hp). split.
  - intros [_ Hne]%elem_of_difference. apply Hne. by apply elem_of_singleton.
  - intros q Hq. rewrite elem_of_difference, elem_of_singleton.
    split; [by intros [? _]|]. by intros ?.
Qed.

(** A [subscribe] that raises or answers with an error leaves the state as
    it is. *)
Lemma subscribe_state_cases message st :
  state_after (PubSub.subscribe urlparse check_path message) st = st
  ∨ ∃ raw path tr,
      has_path message raw ∧ parse_path urlparse raw = inr path
      ∧ (path ∉ subscriptions st) ∧ check_path path = (tr, inr true)
      ∧ state_after (PubSub.subscribe urlparse check_path message) st
        = {| subscriptions := {[path]} ∪ subscriptions st;
             p := {[path]} ∪ p st |}.
Proof.
  unfold has_path.
  destruct (dict_get message "path") as [v|] eqn:Hv.
  2:{ left. unfold state_after, PubSub.subscribe, dict_getitem.
      by rewrite Hv. }
  assert (Hother : (∀ raw, v ≠ JStr raw) →
            state_after (PubSub.subscribe urlparse check_path message) st = st).
  { intros Hns. unfold state_after, PubSub.subscribe, dict_getitem.
    rewrite Hv. run_M.
    destruct v as [|b|n|bits|raw|items|items]; simpl; try done.
    - by destruct b.
    - by destruct (negb (n =? 0)).
    - by destruct (negb (Z.land bits (Z.ones 63) =? 0)).
    - by destruct (Hns raw).
    - by destruct (negb (bool_decide (items = []))).
    - by destruct (negb (bool_decide (items = []))). }
  destruct v as [|b|n|bits|raw|items|items]; try (left; by apply Hother).
  clear Hother.
  destruct (parse_path urlparse raw) as [e|path] eqn:Hp.
  { left. unfold state_after.
    by rewrite (subscribe_parse_raises _ _ _ _ _ _ Hv Hp). }
  destruct (decide (path ∈ subscriptions st)) as [Hin|Hin].
  { left. unfold state_after.
    by rewrite (subscribe_member _ _ _ _ _ _ Hv Hp Hin). }
  destruct (check_path path) as [tr [e|[|]]] eqn:Hc.
  - left. unfold state_after.
    by rewrite (subscribe_check_raises _ _ _ _ _ _ _ _ Hv Hp Hin Hc).
  - right. exists raw, path, tr. unfold state_after.
    rewrite (subscribe_valid _ _ _ _ _ _ _ Hv Hp Hin Hc). done.
  - left. unfold state_after.
    by rewrite (subscribe_invalid _ _ _ _ _ _ _ Hv Hp Hin Hc).
Qed.

(** X4: [subscribe] never drops a subscription, whatever the message is, and a
    path it adds is the canonical path of the message, accepted by the
    validity check. *)
Theorem subscribe_only_adds_canonical_path message st :
  subscriptions st
  ⊆ subscriptions (state_after (PubSub.subscribe urlparse check_path message) st)
  ∧ ∀ q, q ∈ subscriptions (state_after (PubSub.subscribe urlparse check_path message) st) →
         q ∈ subscriptions st
         ∨ ∃ raw tr, has_path message raw ∧ parse_path urlparse raw = inr q
                     ∧ check_path q = (tr, inr true).
Proof.
  destruct (subscribe_state_cases message st)
    as [->|(raw & path & tr & Hm & Hp & Hnew & Hc & ->)]; [by split; [|left]|].
  simpl. split.
  - intros q Hq. apply elem_of_union. by right.
  - intros q [->%elem_of_singleton|Hq]%elem_of_union; [|by left].
    right. by exists raw, tr.
Qed.

(** X5: Once a path is subscribed, a second [subscribe] of a raw path with the
    same canonical path is answered with the error, the validity check is
    not run again and nothing changes. *)
Theorem subscribe_twice message1 message2 raw1 raw2 path tr st :
  has_path message1 raw1 → parse_path urlparse raw1 = inr path →
  has_path message2 raw2 → parse_path urlparse raw2 = inr path →
  path ∉ subscriptions st → check_path path = (tr, inr true) →
  PubSub.subscribe urlparse check_path message2
    (state_after (PubSub.subscribe urlparse check_path message1) st)
  = ([WsSend (JObj [("error", JStr ("Already subscribed to path: " +:+ path))])],
     state_after (PubSub.subscribe urlparse check_path message1) st, inr tt).
Proof.
  intros Hm1 Hp1 Hm2 Hp2 Hnew Hc.
  apply subscribe_member with raw2; [done|done|].
  unfold state_after. rewrite (subscribe_valid _ _ _ _ _ _ _ Hm1 Hp1 Hnew Hc).
  simpl. apply elem_of_union. left. by apply elem_of_singleton.
Qed.

(** X6: After an [unsubscribe], a second one of a raw path with the same
    canonical path is answered with the error and changes nothing, whatever
    the state was before the first. *)
Theorem unsubscribe_twice message1 message2 raw1 raw2 path st :
  has_path message1 raw1 → parse_path urlparse raw1 = inr path →
  has_path message2 raw2 → parse_path urlparse raw2 = inr path →
  PubSub.unsubscribe urlparse message2 (state_after (PubSub.unsubscribe urlparse message1) st)
  = ([WsSend (JObj [("error", JStr ("Not subscribed to path: " +:+ path))])],
     state_after (PubSub.unsubscribe urlparse message1) st, inr tt).
Proof.
  intros Hm1 Hp1 Hm2 Hp2.
  apply unsubscribe_not_member with raw2; [done|done|].
  rewrite (unsubscribe_subscriptions _ _ _ _ Hm1 Hp1).
  intros [_ Hne]%elem_of_difference. apply Hne. by apply elem_of_singleton.
Qed.

End CommandEffects.

(** ** One frame in, at most one frame out *)

Section Orderly.

Variable urlparse : string → Exn + Urllib.ParseResult.
Variable check_path : string → Eff bool.
Variable json_loads : string → Exn + json.
Variable decode_utf8 : list Byte.byte → Exn + string.
Variable Q : Event → Prop.
Hypothesis check_probes : check_events Q check_path.

Lemma orderly_raise st e : orderly Q ([], st, inl e) st.
Proof.
  split; [|done]. exists [], []. repeat split; [constructor|by left|by right].
Qed.

Lemma orderly_reply st v : orderly Q ([WsSend v], st, inr tt) st.
Proof.
  split; [|done]. exists [], [WsSend v].
  repeat split; [constructor|right; eauto|by left].
Qed.

Lemma orderly_silent st st' :
  (in_step st → in_step st') → orderly Q ([], st', inr tt) st.
Proof.
  intros Hst. split; [|done]. exists [], [].
  repeat split; [constructor|by left|by left].
Qed.

Lemma subscribe_unfold message :
  PubSub.subscribe urlparse check_path message
  = (v ← lift_exn (dict_getitem message "path");
     path ← lift_exn (PubSub.parse_path_value urlparse v);
     subscribe_path check_path path).
Proof. reflexivity. Qed.

Lemma unsubscribe_unfold message :
  PubSub.unsubscribe urlparse message
  = (v ← lift_exn (dict_getitem message "path");
     path ← lift_exn (PubSub.parse_path_value urlparse v);
     unsubscribe_path path).
Proof. reflexivity. Qed.

Lemma subscribe_path_orderly path st :
  orderly Q (subscribe_path check_path path st) st.
Proof.
  unfold subscribe_path. run_M.
  destruct path as [s|]; simpl; [|apply orderly_raise].
  case_bool_decide as Hin; simpl; [apply orderly_reply|].
  pose proof (check_probes s) as Hprobes.
  destruct (check_path s) as [tr [e|[|]]]; simpl in *.
  - split; [|done]. exists tr, []. rewrite (right_id_L [] (++)).
    repeat split; [done|by left|by right].
  - rewrite (right_id_L [] (++)). split.
    + exists tr, []. rewrite (right_id_L [] (++)).
      repeat split; [done|by left|by left].
    + unfold in_step. simpl. by intros ->.
  - split; [|done]. exists tr, [WsSend (JObj [("error", JStr ("Invalid path: " +:+ s))])].
    repeat split; [done|right; eauto|by left].
Qed.

Lemma unsubscribe_path_orderly path st :
  orderly Q (unsubscribe_path path st) st.
Proof.
  unfold unsubscribe_path. run_M.
  destruct path as [s|]; simpl; [|apply orderly_reply].
  case_bool_decide as Hin; simpl; [|apply orderly_reply].
  apply orderly_silent. unfold in_step. simpl. by intros ->.
Qed.

(** A method that first looks the canonical path up in the message. *)
Lemma with_path_orderly (body : PathValue → M unit) message st :
  (∀ path, orderly Q (body path st) st) →
  orderly Q ((v ← lift_exn (dict_getitem message "path");
            path ← lift_exn (PubSub.parse_path_value urlparse v);
            body path) st) st.
Proof.
  intros Hbody. run_M.
  destruct (dict_getitem message "path") as [e|v]; [apply orderly_raise|].
  destruct (PubSub.parse_path_value urlparse v) as [e|path]; [apply orderly_raise|].
  specialize (Hbody path).
  destruct (body path st) as [[tr st'] r]. done.
Qed.

Lemma subscribe_orderly message st :
  orderly Q (PubSub.subscribe urlparse check_path message st) st.
Proof.
  rewrite subscribe_unfold. apply with_path_orderly.
  intros path. apply subscribe_path_orderly.
Qed.

Lemma unsubscribe_orderly message st :
  orderly Q (PubSub.unsubscribe urlparse message st) st.
Proof.
  rewrite unsubscribe_unfold. apply with_path_orderly.
  intros path. apply unsubscribe_path_orderly.
Qed.

(** [getattr(self, function)(message)] for the three names. *)
Lemma dispatch_method (method : list (string * json) → M unit) message st :
  (mret method ≫= λ method : list (string * json) → M unit, method message) st
  = method message st.
Proof.
  unfold mbind, M_bind, mret, M_ret.
  by destruct (method message st) as [[tr st'] r].
Qed.

Lemma consumer_orderly frame st :
  orderly Q (PubSub.consumer urlparse check_path json_loads frame st) st.
Proof.
  unfold PubSub.consumer.
  destruct (json_loads frame) as [e|v]; [apply orderly_reply|].
  destruct v as [| | | | | |message]; try apply orderly_reply.
  unfold PubSub.known_function.
  destruct (dict_get message "function") as [[| | | |name| |]|];
    try apply orderly_reply.
  case_bool_decide as Hname; [|apply orderly_reply].
  unfold PubSub.functions in Hname.
  repeat (apply elem_of_cons in Hname as [->|Hname]);
    [| | |by apply elem_of_nil in Hname].
  - change (PubSub.getattr urlparse check_path "ls") with (mret (M := M) PubSub.ls).
    rewrite dispatch_method. apply orderly_reply.
  - change (PubSub.getattr urlparse check_path "subscribe")
      with (mret (M := M) (PubSub.subscribe urlparse check_path)).
    rewrite dispatch_method. apply subscribe_orderly.
  - change (PubSub.getattr urlparse check_path "unsubscribe")
      with (mret (M := M) (PubSub.unsubscribe urlparse)).
    rewrite dispatch_method. apply unsubscribe_orderly.
Qed.

Lemma producer_orderly r_message st :
  orderly Q (PubSub.producer json_loads decode_utf8 r_message st) st.
Proof.
  unfold PubSub.producer. run_M.
  destruct (decode_utf8 (r_channel r_message)) as [e|path]; simpl;
    [apply orderly_raise|].
  destruct (String.eqb (r_type r_message) "message"); simpl;
    [|apply orderly_reply].
  destruct (r_data r_message) as [b|n]; simpl; [|apply orderly_raise].
  destruct (decode_utf8 b) as [e|raw]; simpl; [apply orderly_raise|].
  destruct (json_loads raw) as [e|data]; simpl; [apply orderly_raise|].
  destruct (PubSub.json_getitem data "data") as [e|d]; simpl;
    [apply orderly_raise|].
  destruct (PubSub.json_getitem data "type") as [e|t]; simpl;
    [apply orderly_raise|].
  apply orderly_reply.
Qed.

End Orderly.

(** ** The main loop never closes and keeps set and handle in step *)

Section Tame.

Variable urlparse : string → Exn + Urllib.ParseResult.
Variable check_path : string → Eff bool.
Variable json_loads : string → Exn + json.
Variable decode_utf8 : list Byte.byte → Exn + string.
Variable Q : Event → Prop.
Hypothesis check_probes : check_events Q check_path.

Lemma tame_ret {A} (x : A) : tame Q (mret x).
Proof. intros st. split; [constructor|done]. Qed.

Lemma tame_raise {A} e : tame Q (raise (A := A) e).
Proof. intros st. split; [constructor|done]. Qed.

Lemma tame_lift_exn {A} (r : Exn + A) : tame Q (lift_exn r).
Proof. intros st. split; [constructor|done]. Qed.

Lemma tame_recv : tame Q (emit WsRecv).
Proof.
  intros st. split; [|done]. constructor; [|constructor]. right. by left.
Qed.

Lemma tame_bind {A B} (m : M A) (f : A → M B) :
  tame Q m → (∀ x, tame Q (f x)) → tame Q (m ≫= f).
Proof.
  intros Hm Hf st. unfold mbind, M_bind.
  destruct (Hm st) as [Hev Hst].
  destruct (m st) as [[tr st'] [e|x]]; simpl in *; [done|].
  destruct (Hf x st') as [Hev' Hst'].
  destruct (f x st') as [[tr' st''] r]; simpl in *.
  split; [by apply Forall_app|auto].
Qed.

Lemma orderly_tame (c : M unit) : (∀ st, orderly Q (c st) st) → tame Q c.
Proof.
  intros Hc st. destruct (Hc st) as [(probes & replies & -> & Hp & Hr & _) Hst].
  split; [|done]. apply Forall_app. split.
  - eapply Forall_impl; [exact Hp|]. intros ev Hev. by left.
  - destruct Hr as [->|[v ->]]; constructor; [|constructor].
    right. right. eauto.
Qed.

Lemma tame_as_task (c : M unit) : tame Q c → tame Q (PubSub.as_task c).
Proof.
  intros Hc st. unfold PubSub.as_task. destruct (Hc st) as [Hev Hst].
  by destruct (c st) as [[tr st'] [e|[]]].
Qed.

Lemma tame_task_result r : tame Q (PubSub.task_result r).
Proof. destruct r; [apply tame_raise|apply tame_ret]. Qed.

Lemma tame_consumer frame :
  tame Q (PubSub.consumer urlparse check_path json_loads frame).
Proof. apply orderly_tame. intros st. by apply consumer_orderly. Qed.

Lemma tame_producer r_message :
  tame Q (PubSub.producer json_loads decode_utf8 r_message).
Proof. apply orderly_tame. intros st. apply producer_orderly. Qed.

Lemma tame_finish ready :
  tame Q (PubSub.finish urlparse check_path json_loads decode_utf8 ready).
Proof.
  destruct ready as [frame|r_message|frame r_message]; unfold PubSub.finish.
  - apply tame_bind; [apply tame_lift_exn|]. intros f. apply tame_consumer.
  - apply tame_bind; [apply tame_as_task, tame_producer|].
    intros r. apply tame_task_result.
  - apply tame_bind; [apply tame_as_task, tame_producer|]. intros r.
    apply tame_bind; [apply tame_lift_exn|]. intros f.
    apply tame_bind; [apply tame_consumer|]. intros _. apply tame_task_result.
Qed.

Lemma tame_handle pending readies :
  tame Q pending →
  tame Q (PubSub.handle urlparse check_path json_loads decode_utf8 pending readies).
Proof.
  revert pending. induction readies as [|ready readies IH]; intros pending Hp;
    cbn [PubSub.handle].
  - apply tame_bind; [apply tame_recv|]. intros _.
    apply tame_bind; [done|]. intros _. apply tame_ret.
  - apply tame_bind; [apply tame_recv|]. intros _.
    apply tame_bind; [done|]. intros _.
    apply tame_bind; [apply tame_finish|]. intros _.
    apply IH, tame_ret.
Qed.

Lemma tame_scheduled first : tame Q (scheduled urlparse check_path first).
Proof.
  destruct first as [message|]; [|apply tame_ret]. unfold scheduled.
  apply tame_bind; [|intros _; apply tame_ret].
  apply tame_as_task, orderly_tame. intros st. by apply subscribe_orderly.
Qed.

End Tame.

(** X7: For one inbound frame the consumer sends at most one frame, after the
    probes of the validity check if there are any, and none at all when it
    raises; it never closes the websocket. *)
Theorem consumer_replies_at_most_once (urlparse : string → Exn + Urllib.ParseResult)
    (check_path : string → Eff bool) (json_loads : string → Exn + json)
    frame st :
  only_probes check_path →
  ∃ probes replies,
    events_of (PubSub.consumer urlparse check_path json_loads frame) st = probes ++ replies
    ∧ Forall is_probe probes
    ∧ at_most_one_reply replies
    ∧ ((PubSub.consumer urlparse check_path json_loads frame st).2 = inr tt
       ∨ replies = []).
Proof.
  intros Hcheck.
  destruct (consumer_orderly urlparse check_path json_loads is_probe Hcheck frame st)
    as [Hshape _].
  exact Hshape.
Qed.

Lemma consumer_replies_at_most_once_witness :
  ∃ probes replies,
    events_of (PubSub.consumer sample_urlparse module_check sample_loads (command_frame "ls"))
      (subscribed_to "/api/salads")
    = probes ++ replies
    ∧ Forall is_probe probes
    ∧ at_most_one_reply replies
    ∧ ((PubSub.consumer sample_urlparse module_check sample_loads (command_frame "ls")
          (subscribed_to "/api/salads")).2 = inr tt
       ∨ replies = []).
Proof.
  apply (consumer_replies_at_most_once sample_urlparse module_check sample_loads
           (command_frame "ls") (subscribed_to "/api/salads")).
  intros path. unfold module_check.
  rewrite is_valid_app_path_constant. simpl. constructor.
Defined.

(** X8: The producer never touches the subscription set or the handle; it sends
    one frame when it returns and none when it raises. *)
Theorem producer_leaves_state (json_loads : string → Exn + json)
    (decode_utf8 : list Byte.byte → Exn + string) r_message st :
  (∃ v, PubSub.producer json_loads decode_utf8 r_message st
        = ([WsSend v], st, inr tt))
  ∨ (∃ e, PubSub.producer json_loads decode_utf8 r_message st
          = ([], st, inl e)).
Proof.
  unfold PubSub.producer. run_M.
  destruct (decode_utf8 (r_channel r_message)) as [e|path]; simpl; [eauto|].
  destruct (String.eqb (r_type r_message) "message"); simpl; [|eauto].
  destruct (r_data r_message) as [b|n]; simpl; [|eauto].
  destruct (decode_utf8 b) as [e|raw]; simpl; [eauto|].
  destruct (json_loads raw) as [e|data]; simpl; [eauto|].
  destruct (PubSub.json_getitem data "data") as [e|d]; simpl; [eauto|].
  destruct (PubSub.json_getitem data "type") as [e|t]; simpl; [eauto|].
  eauto.
Qed.

(** X9: Through any number of turns of the main loop, whatever frames and redis
    messages come in and whatever the validity check answers, a set and a
    handle that agree stay in agreement: a path is in [subscriptions]
    exactly when the handle is subscribed to it. *)
Theorem handle_keeps_set_and_handle_in_step (urlparse : string → Exn + Urllib.ParseResult)
    (check_path : string → Eff bool) (json_loads : string → Exn + json)
    (decode_utf8 : list Byte.byte → Exn + string) first readies st :
  in_step st →
  in_step (state_after (PubSub.handle urlparse check_path json_loads decode_utf8
                          (scheduled urlparse check_path first) readies) st).
Proof.
  assert (Hany : check_events (λ _, True) check_path).
  { intros path. by apply Forall_forall. }
  apply (tame_handle urlparse check_path json_loads decode_utf8 _ Hany
           (scheduled urlparse check_path first) readies
           (tame_scheduled urlparse check_path _ Hany first) st).
Qed.

Lemma handle_keeps_set_and_handle_in_step_witness :
  in_step (state_after (PubSub.handle sample_urlparse accept_all sample_loads sample_decode
                          (scheduled sample_urlparse accept_all
                             (Some [("path", JStr "/api/salads/123")]))
                          [Inbound (inr (command_frame "ls"))])
             PubSub.fresh).
Proof.
  apply (handle_keeps_set_and_handle_in_step sample_urlparse accept_all sample_loads
           sample_decode (Some [("path", JStr "/api/salads/123")])
           [Inbound (inr (command_frame "ls"))] PubSub.fresh).
  reflexivity.
Defined.

(** ** A connection from [create] to its end *)

Section Lifecycle.

Variable urlparse : string → Exn + Urllib.ParseResult.
Variable check_path : string → Eff bool.
Variable json_loads : string → Exn + json.
Variable decode_utf8 : list Byte.byte → Exn + string.

Lemma create_unfold path readies :
  PubSub.create urlparse check_path json_loads decode_utf8 path readies
  = (first ← PubSub.__init__ check_path path;
     PubSub.with_self
       (PubSub.handle urlparse check_path json_loads decode_utf8
          (scheduled urlparse check_path first) readies)).
Proof. reflexivity. Qed.

(** [__init__] runs the validity check on the initial path, calls [close]
    if the answer is [False], and leaves the state alone. *)
Lemma init_cases path st :
  (∃ tr e, check_path (initial_path path) = (tr, inl e)
           ∧ PubSub.__init__ check_path path st = (tr, st, inl e))
  ∨ (∃ tr first, check_path (initial_path path) = (tr, inr true)
                 ∧ PubSub.__init__ check_path path st = (tr, st, inr first))
  ∨ (∃ tr first, check_path (initial_path path) = (tr, inr false)
                 ∧ PubSub.__init__ check_path path st
                   = (tr ++ [WsClose 4000 "Invalid path."], st, inr first)).
Proof.
  destruct (check_path (initial_path path)) as [tr [e|[|]]] eqn:Hc.
  - left. exists tr, e. split; [done|].
    unfold PubSub.__init__. fold (initial_path path). run_M. by rewrite Hc.
  - right. left.
    exists tr, (if String.eqb (initial_path path) EmptyString then None
                else Some [("path", JStr (initial_path path))]).
    split; [done|].
    unfold PubSub.__init__. fold (initial_path path). run_M. rewrite Hc. simpl.
    destruct (String.eqb (initial_path path) EmptyString); simpl;
      by rewrite (right_id_L [] (++)).
  - right. right. exists tr. eexists. split; [done|].
    by rewrite (init_invalid _ _ _ _ Hc).
Qed.

(** The [with] block: a body that is still waiting is left alone; when the
    body raises, the handle drops all its channels and the exception that
    leaves is the [AttributeError] of [self.log.Exception]. *)
Lemma with_self_cases body st :
  (∃ tr st', body st = (tr, st', inr tt)
             ∧ PubSub.with_self body st = (tr, st', inr tt))
  ∨ (∃ tr st' e, body st = (tr, st', inl e)
                 ∧ PubSub.with_self body st
                   = (tr, {| subscriptions := subscriptions st'; p := ∅ |},
                      inl AttributeError)).
Proof.
  unfold PubSub.with_self.
  destruct (body st) as [[tr st'] [e|[]]]; [right|left; eauto].
  exists tr, st', e. split; [done|]. simpl. by rewrite (right_id_L [] (++)).
Qed.

End Lifecycle.

(** X10: The trace of a whole connection, when the validity check does nothing
    but probe: the probes of [__init__], then at most one [close] call, the
    one with code 4000 and reason "Invalid path.", then events of the main
    loop only. Once the loop runs the handler never calls [close]. *)
Theorem create_closes_at_most_once_before_the_loop (urlparse : string → Exn + Urllib.ParseResult)
    (check_path : string → Eff bool) (json_loads : string → Exn + json)
    (decode_utf8 : list Byte.byte → Exn + string) path readies st :
  only_probes check_path →
  ∃ probes closes rest,
    events_of (PubSub.create urlparse check_path json_loads decode_utf8 path readies) st
    = probes ++ closes ++ rest
    ∧ Forall is_probe probes
    ∧ (closes = [] ∨ closes = [WsClose 4000 "Invalid path."])
    ∧ Forall (loop_event is_probe) rest.
Proof.
  intros Hcheck. unfold events_of. rewrite create_unfold.
  unfold mbind at 1. unfold M_bind.
  pose proof (Hcheck (initial_path path)) as Hprobes.
  assert (Hloop : ∀ first,
            Forall (loop_event is_probe)
              (PubSub.with_self
                 (PubSub.handle urlparse check_path json_loads decode_utf8
                    (scheduled urlparse check_path first) readies) st).1.1).
  { intros first.
    destruct (tame_handle urlparse check_path json_loads decode_utf8 is_probe Hcheck
                (scheduled urlparse check_path first) readies
                (tame_scheduled urlparse check_path is_probe Hcheck first) st)
      as [Hev _].
    destruct (with_self_cases
                (PubSub.handle urlparse check_path json_loads decode_utf8
                   (scheduled urlparse check_path first) readies) st)
      as [(tr & st' & Hb & ->)|(tr & st' & e & Hb & ->)];
      rewrite Hb in Hev; done. }
  destruct (init_cases check_path path st)
    as [(tr & e & Hc & ->)|[(tr & first & Hc & ->)|(tr & first & Hc & ->)]];
    rewrite Hc in Hprobes; simpl in Hprobes.
  - exists tr, [], []. simpl. rewrite (right_id_L [] (++)).
    repeat split; [done|by left|constructor].
  - specialize (Hloop first).
    destruct (PubSub.with_self _ st) as [[tr' st'] r]. simpl in *.
    exists tr, [], tr'. repeat split; [done|by left|done].
  - specialize (Hloop first).
    destruct (PubSub.with_self _ st) as [[tr' st'] r]. simpl in *.
    exists tr, [WsClose 4000 "Invalid path."], tr'.
    rewrite <- (assoc_L (++)). repeat split; [done|by right|done].
Qed.

Lemma create_closes_at_most_once_before_the_loop_witness :
  ∃ probes closes rest,
    events_of (PubSub.create sample_urlparse module_check sample_loads sample_decode
                 "/api/salads/ws" [Inbound (inr (command_frame "ls"))])
      PubSub.fresh
    = probes ++ closes ++ rest
    ∧ Forall is_probe probes
    ∧ (closes = [] ∨ closes = [WsClose 4000 "Invalid path."])
    ∧ Forall (loop_event is_probe) rest.
Proof.
  apply (create_closes_at_most_once_before_the_loop sample_urlparse module_check sample_loads
           sample_decode "/api/salads/ws"
           [Inbound (inr (command_frame "ls"))] PubSub.fresh).
  intros path. unfold module_check.
  rewrite is_valid_app_path_constant. simpl. constructor.
Defined.

(** X11: When [create] ends with an exception, either the validity check raised
    it inside [__init__], before the handler was set up, and the state is
    untouched; or the loop was left, and then the handle has dropped every
    channel and the exception is the [AttributeError] raised by
    [self.log.Exception] in [__exit__], whatever it was that ended the
    loop. *)
Theorem create_ends_with_cleanup (urlparse : string → Exn + Urllib.ParseResult)
    (check_path : string → Eff bool) (json_loads : string → Exn + json)
    (decode_utf8 : list Byte.byte → Exn + string) path readies st e :
  (PubSub.create urlparse check_path json_loads decode_utf8 path readies st).2 = inl e →
  (∃ tr, check_path (initial_path path) = (tr, inl e)
         ∧ PubSub.create urlparse check_path json_loads decode_utf8 path readies st
           = (tr, st, inl e))
  ∨ (e = AttributeError
     ∧ p (state_after
            (PubSub.create urlparse check_path json_loads decode_utf8 path readies) st)
       = ∅).
Proof.
  unfold state_after. rewrite create_unfold. unfold mbind at 1 2 3. unfold M_bind.
  destruct (init_cases check_path path st)
    as [(tr & e' & Hc & ->)|[(tr & first & Hc & ->)|(tr & first & Hc & ->)]].
  - simpl. intros [= <-]. left. by exists tr.
  - destruct (with_self_cases
                (PubSub.handle urlparse check_path json_loads decode_utf8
                   (scheduled urlparse check_path first) readies) st)
      as [(tr' & st' & Hb & ->)|(tr' & st' & e' & Hb & ->)]; simpl; [done|].
    intros [= <-]. by right.
  - destruct (with_self_cases
                (PubSub.handle urlparse check_path json_loads decode_utf8
                   (scheduled urlparse check_path first) readies) st)
      as [(tr' & st' & Hb & ->)|(tr' & st' & e' & Hb & ->)]; simpl; [done|].
    intros [= <-]. by right.
Qed.

(** A connection whose socket is closed on the second turn. *)
Lemma create_ends_with_cleanup_witness :
  p (state_after
       (PubSub.create sample_urlparse accept_all sample_loads sample_decode "/api/salads/ws"
          [Inbound (inr (command_frame "ls")); Inbound (inl ConnectionClosed)])
       PubSub.fresh)
  = ∅.
Proof.
  destruct (create_ends_with_cleanup sample_urlparse accept_all sample_loads sample_decode
              "/api/salads/ws"
              [Inbound (inr (command_frame "ls")); Inbound (inl ConnectionClosed)]
              PubSub.fresh AttributeError eq_refl)
    as [(tr & Hc & _)|[_ Hp]]; [discriminate Hc|exact Hp].
Defined.

(** ** More on the canonical path *)

Lemma find_take c n s i :
  Py.find c (Py.take n s) = Some i → Py.find c s = Some i.
Proof.
  revert n i. induction s as [|a s IH]; intros [|n] i; simpl; try done.
  destruct (Ascii.eqb a c); [done|].
  destruct (Py.find c (Py.take n s)) as [j|] eqn:Hj; [|done].
  intros [= <-]. by rewrite (IH n j Hj).
Qed.

Lemma find_drop c n s i :
  Py.find c (Py.drop n s) = Some i → is_Some (Py.find c s).
Proof.
  revert s i. induction n as [|n IH]; intros s i.
  - destruct s; simpl; intros H; by rewrite H.
  - destruct s as [|a s]; simpl; [done|].
    intros H. destruct (Ascii.eqb a c); [done|].
    destruct (IH s i H) as [j ->]. done.
Qed.

Lemma find_take_self c s i :
  Py.find c s = Some i → Py.find c (Py.take i s) = None.
Proof.
  revert i. induction s as [|a s IH]; intros i; simpl; [done|].
  destruct (Ascii.eqb a c) eqn:Hac; [by intros [= <-]|].
  destruct (Py.find c s) as [j|] eqn:Hj; [|done].
  intros [= <-]. simpl. by rewrite Hac, (IH j).
Qed.

Lemma contains_take c n s :
  Py.contains c s = false → Py.contains c (Py.take n s) = false.
Proof.
  rewrite !contains_false. intros Hs.
  destruct (Py.find c (Py.take n s)) as [i|] eqn:Hi; [|done].
  apply find_take in Hi. congruence.
Qed.

Lemma contains_drop c n s :
  Py.contains c s = false → Py.contains c (Py.drop n s) = false.
Proof.
  rewrite !contains_false. intros Hs.
  destruct (Py.find c (Py.drop n s)) as [i|] eqn:Hi; [|done].
  apply find_drop in Hi. rewrite Hs in Hi. by destruct Hi.
Qed.

(** What [urlsplit] keeps in front of the first [c]: [c] is not in it, and
    no other character gets into it. *)
Lemma cut_front c s u r :
  (if Py.contains c s then Py.split1 c s else (s, EmptyString)) = (u, r) →
  Py.contains c u = false
  ∧ ∀ d, Py.contains d s = false → Py.contains d u = false.
Proof.
  destruct (Py.contains c s) eqn:Hc.
  - unfold Py.split1. apply contains_true in Hc as [i Hi]. rewrite Hi.
    intros [= <- <-]. split.
    + apply contains_false. by apply find_take_self.
    + intros d. apply contains_take.
  - intros [= <- <-]. by split.
Qed.

(** Tests on all the characters of a string, as [all(f(c) for c in s)]:
    slices, [lstrip] and [replace(b, '')] keep them. *)
Lemma contains_all_chars c s :
  Py.contains c s = false ↔ Py.all_chars (λ a, negb (Ascii.eqb a c)) s = true.
Proof.
  rewrite contains_false. induction s as [|a s IH]; simpl; [done|].
  destruct (Ascii.eqb a c); simpl; [done|].
  rewrite <- IH. by destruct (Py.find c s).
Qed.

Lemma all_chars_take f n s :
  Py.all_chars f s = true → Py.all_chars f (Py.take n s) = true.
Proof.
  revert n. induction s as [|a s IH]; intros [|n]; simpl; try done.
  intros [-> Hs]%andb_true_iff. by apply IH.
Qed.

Lemma all_chars_drop f n s :
  Py.all_chars f s = true → Py.all_chars f (Py.drop n s) = true.
Proof.
  revert s. induction n as [|n IH]; intros [|a s]; simpl; try done.
  intros [_ Hs]%andb_true_iff. by apply IH.
Qed.

Lemma all_chars_lstrip_set f g s :
  Py.all_chars f s = true → Py.all_chars f (Urllib311.lstrip_set g s) = true.
Proof.
  induction s as [|a s IH]; simpl; [done|].
  intros Hs. destruct (g a); [|done].
  apply andb_true_iff in Hs as [_ Hs]. by apply IH.
Qed.

Lemma all_chars_remove_chars f g s :
  Py.all_chars f s = true → Py.all_chars f (Urllib311.remove_chars g s) = true.
Proof.
  induction s as [|a s IH]; simpl; [done|].
  intros [Ha Hs]%andb_true_iff. destruct (g a); simpl; [by apply IH|].
  rewrite Ha. by apply IH.
Qed.


Lemma all_chars_split_scheme f url :
  Py.all_chars f url = true →
  Py.all_chars f (Urllib311.split_scheme url).2 = true.
Proof.
  intros Hu. unfold Urllib311.split_scheme.
  destruct (Py.find ":" url) as [[|i]|]; try done.
  destruct (_ && _); [by apply all_chars_drop|done].
Qed.

Lemma all_chars_netloc f url :
  Py.all_chars f url = true →
  Py.all_chars f (if String.eqb (Py.take 2 url) "//"
                  then Urllib311.splitnetloc url 2
                  else (EmptyString, url)).1 = true.
Proof.
  intros Hu. destruct (String.eqb (Py.take 2 url) "//"); [|done].
  unfold Urllib311.splitnetloc. cbn [fst].
  by apply all_chars_take, all_chars_drop.
Qed.

Lemma splitparams_front url d :
  Py.contains d url = false →
  Py.contains d (Urllib311.splitparams url).1 = false.
Proof.
  intros Hd. unfold Urllib311.splitparams.
  destruct (Py.contains "/" url).
  - destruct (Py.find_from ";" _ url); simpl; [by apply contains_take|done].
  - destruct (Py.find ";" url); simpl; [by apply contains_take|done].
Qed.








Section Library311.

Variable check_bracketed_host : string → option Exn.
Variable nfkc_check : string → option Exn.

(** The netloc [urlsplit] finds in a raw path is made of characters of the
    raw path. *)
Lemma netloc_of_raw f raw :
  Py.all_chars f raw = true →
  let url := (Urllib311.split_scheme
                (Urllib311.remove_chars Urllib311.unsafe_url_byte
                   (Urllib311.lstrip_set Urllib311.c0_control_or_space raw))).2 in
  Py.all_chars f (if String.eqb (Py.take 2 url) "//"
                  then Urllib311.splitnetloc url 2
                  else (EmptyString, url)).1 = true.
Proof.
  intros Hraw url. apply all_chars_netloc. unfold url.
  by apply all_chars_split_scheme, all_chars_remove_chars, all_chars_lstrip_set.
Qed.

(** The three places where [urlparse] raises. *)
Lemma parse_path_raise_cases raw e :
  parse_path (Urllib311.urlparse check_bracketed_host nfkc_check) raw = inl e →
  (e = ValueError "Invalid IPv6 URL"
   ∧ (Py.contains "[" raw = true ∨ Py.contains "]" raw = true))
  ∨ (∃ netloc, Urllib311.check_bracketed_netloc check_bracketed_host netloc
               = Some e
               ∧ Py.contains "[" raw = true ∧ Py.contains "]" raw = true)
  ∨ (∃ netloc, nfkc_check netloc = Some e
               ∧ Py.all_chars Urllib311.is_ascii raw = false).
Proof.
  unfold parse_path, Urllib311.urlparse, Urllib311.urlsplit.
  pose proof (λ f, netloc_of_raw f raw) as Hkeep. cbv zeta in Hkeep.
  destruct (Urllib311.split_scheme _) as [scheme url]. cbn [snd] in Hkeep.
  destruct (if String.eqb (Py.take 2 url) "//" then Urllib311.splitnetloc url 2
            else (EmptyString, url)) as [netloc url0].
  cbn [fst] in Hkeep.
  assert (Hin : ∀ c, Py.contains c netloc = true → Py.contains c raw = true).
  { intros c Hc. destruct (Py.contains c raw) eqn:Hraw; [done|].
    apply contains_all_chars, Hkeep, contains_all_chars in Hraw. congruence. }
  assert (Hascii : Py.all_chars Urllib311.is_ascii netloc = false →
                   Py.all_chars Urllib311.is_ascii raw = false).
  { intros Hn. destruct (Py.all_chars Urllib311.is_ascii raw) eqn:Hraw; [|done].
    apply Hkeep in Hraw. congruence. }
  destruct (Py.contains "[" netloc) eqn:Hopen, (Py.contains "]" netloc) eqn:Hclose;
    cbn [andb orb negb].
  - destruct (Urllib311.check_bracketed_netloc _ netloc) as [e'|] eqn:Hb.
    { intros [= <-]. right. left. exists netloc. auto. }
    destruct (if Py.contains "#" url0 then _ else _) as [url1 fragment].
    destruct (if Py.contains "?" url1 then _ else _) as [url2 query].
    unfold Urllib311.checknetloc.
    destruct (_ || _) eqn:Hn.
    { by destruct (if _ && _ then _ else _). }
    destruct (nfkc_check netloc) as [e'|] eqn:Hk.
    + intros [= <-]. right. right. exists netloc.
      apply orb_false_iff in Hn as [_ Hn]. auto.
    + by destruct (if _ && _ then _ else _).
  - intros [= <-]. left. auto.
  - intros [= <-]. left. auto.
  - destruct (if Py.contains "#" url0 then _ else _) as [url1 fragment].
    destruct (if Py.contains "?" url1 then _ else _) as [url2 query].
    unfold Urllib311.checknetloc.
    destruct (_ || _) eqn:Hn.
    { by destruct (if _ && _ then _ else _). }
    destruct (nfkc_check netloc) as [e'|] eqn:Hk.
    + intros [= <-]. right. right. exists netloc.
      apply orb_false_iff in Hn as [_ Hn]. auto.
    + by destruct (if _ && _ then _ else _).
Qed.

(** X12: Whatever the raw path, its canonical path holds neither a [?] nor a
    [#]: query and fragment are always cut off. *)
Theorem parse_path_has_no_query_or_fragment raw path :
  parse_path (Urllib311.urlparse check_bracketed_host nfkc_check) raw
  = inr path →
  Py.contains "?" path = false ∧ Py.contains "#" path = false.
Proof.
  unfold parse_path, Urllib311.urlparse, Urllib311.urlsplit.
  destruct (Urllib311.split_scheme _) as [scheme url].
  destruct (if String.eqb (Py.take 2 url) "//" then Urllib311.splitnetloc url 2
            else (EmptyString, url)) as [netloc url0].
  destruct (_ || _); [done|].
  destruct (if Py.contains "[" netloc && Py.contains "]" netloc then _ else _);
    [done|].
  destruct (if Py.contains "#" url0 then Py.split1 "#" url0
            else (url0, EmptyString)) as [url1 fragment] eqn:H1.
  destruct (if Py.contains "?" url1 then Py.split1 "?" url1
            else (url1, EmptyString)) as [url2 query] eqn:H2.
  destruct (cut_front _ _ _ _ H1) as [Hhash _].
  destruct (cut_front _ _ _ _ H2) as [Hquery Hkeep].
  specialize (Hkeep "#"%char Hhash).
  destruct (Urllib311.checknetloc _ _); [done|].
  destruct (bool_decide (scheme ∈ Urllib311.uses_params) && Py.contains ";" url2).
  - pose proof (splitparams_front url2 "?" Hquery) as Hq.
    pose proof (splitparams_front url2 "#" Hkeep) as Hf.
    destruct (Urllib311.splitparams url2) as [url3 params]. simpl in *.
    by intros [= <-].
  - by intros [= <-].
Qed.


(** X14: [parse_path] raises in three places only: the [ValueError] of a
    netloc with one square bracket and not the other; what
    [_check_bracketed_netloc] raises, for a raw path with both brackets in
    it; and what the NFKC check raises, for a raw path with a character that
    is not ASCII. So [parse_path] returns on every ASCII raw path without
    square brackets. *)
Theorem parse_path_raises_on_brackets_or_non_ascii raw :
  (∀ e,
     parse_path (Urllib311.urlparse check_bracketed_host nfkc_check) raw
     = inl e →
     (e = ValueError "Invalid IPv6 URL"
      ∧ (Py.contains "[" raw = true ∨ Py.contains "]" raw = true))
     ∨ (∃ netloc, Urllib311.check_bracketed_netloc check_bracketed_host netloc
               = Some e
                  ∧ Py.contains "[" raw = true ∧ Py.contains "]" raw = true)
     ∨ (∃ netloc, nfkc_check netloc = Some e
                  ∧ Py.all_chars Urllib311.is_ascii raw = false))
  ∧ (lacks ["["; "]"]%char raw → Py.all_chars Urllib311.is_ascii raw = true →
     ∃ path,
       parse_path (Urllib311.urlparse check_bracketed_host nfkc_check) raw
       = inr path).
Proof.
  split; [apply parse_path_raise_cases|].
  intros Hraw Hascii.
  destruct (parse_path _ raw) as [e|path] eqn:Hp; [exfalso|by exists path].
  assert (Hopen : Py.contains "[" raw = false) by (apply Hraw; in_list).
  assert (Hclose : Py.contains "]" raw = false) by (apply Hraw; in_list).
  destruct (parse_path_raise_cases raw e Hp)
    as [[_ [H|H]]|[(netloc & _ & H & _)|(netloc & _ & H)]]; congruence.
Qed.


End Library311.

Lemma parse_path_has_no_query_or_fragment_witness :
  Py.contains "?" "/api/salads" = false ∧ Py.contains "#" "/api/salads" = false.
Proof.
  apply (parse_path_has_no_query_or_fragment no_check no_check
           "https://example.org/api/salads?children=1#top" "/api/salads").
  reflexivity.
Defined.


Lemma parse_path_raises_on_brackets_or_non_ascii_witness :
  ∃ path, parse_path urlparse311 "http://localhost:5000/api/salads" = inr path.
Proof.
  apply (parse_path_raises_on_brackets_or_non_ascii no_check no_check
           "http://localhost:5000/api/salads");
    [lacks_by_cases|reflexivity].
Defined.


(** ** The initial path of a connection *)

Lemma rstrip_all c s : Py.all_chars (Ascii.eqb c) s = true → Py.rstrip c s = EmptyString.
Proof.
  induction s as [|a s IH]; simpl; [done|].
  intros [Ha Hs]%andb_true_iff. rewrite (IH Hs).
  by rewrite Ascii.eqb_sym, Ha.
Qed.

Lemma rstrip_app_stripped c s1 s2 :
  Py.rstrip c s2 = EmptyString → Py.rstrip c (s1 +:+ s2) = Py.rstrip c s1.
Proof.
  intros Hs2. induction s1 as [|a s1 IH]; [done|].
  rewrite append_cons. simpl. by rewrite IH.
Qed.

Lemma rstrip_app_kept c s1 s2 :
  Py.rstrip c s2 ≠ EmptyString →
  Py.rstrip c (s1 +:+ s2) = s1 +:+ Py.rstrip c s2.
Proof.
  intros Hs2. induction s1 as [|a s1 IH]; [done|].
  rewrite !append_cons. simpl. rewrite IH.
  destruct (s1 +:+ Py.rstrip c s2) as [|b r] eqn:Hr; [|done].
  destruct s1; [|done]. by rewrite append_nil_l in Hr.
Qed.

(** X15: From a request path that is some path followed by [/ws] and any number
    of slashes, [__init__] gets that path back as it is, a slash at its end
    included. *)
Theorem initial_path_of_websocket_link path slashes :
  Py.all_chars (Ascii.eqb "/") slashes = true →
  initial_path (path +:+ "/ws" +:+ slashes) = path.
Proof.
  intros Hs. unfold initial_path.
  assert (Hstrip : Py.rstrip "/" (path +:+ "/ws" +:+ slashes) = path +:+ "/ws").
  { assert (Hws : Py.rstrip "/" ("/ws" +:+ slashes) = "/ws").
    { by rewrite rstrip_app_stripped by by apply rstrip_all. }
    rewrite rstrip_app_kept; by rewrite Hws. }
  rewrite Hstrip. unfold Py.endswith, Py.drop_last.
  rewrite length_append. change (String.length "/ws") with 3%nat.
  replace (String.length path + 3 - 3)%nat with (String.length path) by lia.
  rewrite drop_app_length, take_app_length.
  assert ((3 <=? String.length path + 3)%nat = true) as ->
    by (apply Nat.leb_le; lia).
  done.
Qed.

Lemma initial_path_of_websocket_link_witness :
  initial_path ("/api/salads/123" +:+ "/ws" +:+ "//") = "/api/salads/123".
Proof.
  apply (initial_path_of_websocket_link "/api/salads/123" "//"). reflexivity.
Defined.

(** X16: A connection opened on a valid, non-empty initial path is not closed and
    is subscribed to the canonical form of that path during the first wait
    of the loop, before any frame is handled. The validity check runs
    twice: in [__init__] on the initial path, and in the scheduled
    [subscribe] on its canonical form. *)
Theorem create_subscribes_to_initial_path (urlparse : string → Exn + Urllib.ParseResult)
    (check_path : string → Eff bool) (json_loads : string → Exn + json)
    (decode_utf8 : list Byte.byte → Exn + string) path channel tr1 tr2 :
  initial_path path ≠ EmptyString →
  check_path (initial_path path) = (tr1, inr true) →
  parse_path urlparse (initial_path path) = inr channel →
  check_path channel = (tr2, inr true) →
  PubSub.create urlparse check_path json_loads decode_utf8 path [] PubSub.fresh
  = (tr1 ++ WsRecv :: tr2, subscribed_to channel, inr tt).
Proof.
  intros Hne Hc1 Hp Hc2.
  assert (Hinit : PubSub.__init__ check_path path PubSub.fresh
                  = (tr1, PubSub.fresh,
                     inr (Some [("path", JStr (initial_path path))]))).
  { unfold PubSub.__init__. fold (initial_path path). run_M. rewrite Hc1. simpl.
    apply String.eqb_neq in Hne. rewrite Hne. simpl.
    by rewrite (right_id_L [] (++)). }
  assert (Hsub : PubSub.subscribe urlparse check_path
                   [("path", JStr (initial_path path))] PubSub.fresh
                 = (tr2 ++ [], subscribed_to channel, inr tt)).
  { rewrite (subscribe_valid urlparse check_path _ (initial_path path) channel _ tr2);
      [|done|done|apply not_elem_of_empty|done].
    unfold subscribed_to. simpl. by rewrite !(right_id_L ∅ (∪)). }
  rewrite create_unfold. unfold mbind at 1. unfold M_bind. rewrite Hinit.
  unfold PubSub.with_self. cbn [PubSub.handle scheduled].
  unfold PubSub.as_task. run_M. rewrite Hsub. simpl.
  by rewrite !(right_id_L [] (++)).
Qed.

Lemma create_subscribes_to_initial_path_witness :
  PubSub.create sample_urlparse accept_all sample_loads sample_decode "/api/salads/123/ws" []
    PubSub.fresh
  = ([] ++ WsRecv :: [], subscribed_to "/api/salads/123", inr tt).
Proof.
  apply (create_subscribes_to_initial_path sample_urlparse accept_all sample_loads sample_decode
           "/api/salads/123/ws" "/api/salads/123" [] []);
    [discriminate|reflexivity|reflexivity|reflexivity].
Defined.

(** ** Witnesses for the commands *)

Lemma unsubscribe_removes_exactly_witness :
  ("/api/salads" ∉ subscriptions
     (state_after (PubSub.unsubscribe sample_urlparse [("path", JStr "/api/salads?children=1")])
        (subscribed_to "/api/salads")))
  ∧ ∀ q, q ≠ "/api/salads" →
         (q ∈ subscriptions
            (state_after
               (PubSub.unsubscribe sample_urlparse [("path", JStr "/api/salads?children=1")])
               (subscribed_to "/api/salads"))
          ↔ q ∈ subscriptions (subscribed_to "/api/salads")).
Proof.
  apply (unsubscribe_removes_exactly sample_urlparse
           [("path", JStr "/api/salads?children=1")] "/api/salads?children=1"
           "/api/salads" (subscribed_to "/api/salads"));
    reflexivity.
Defined.

Lemma subscribe_twice_witness :
  PubSub.subscribe sample_urlparse accept_all [("path", JStr "http://localhost:5000/api/salads")]
    (state_after (PubSub.subscribe sample_urlparse accept_all [("path", JStr "/api/salads")])
       PubSub.fresh)
  = ([WsSend (JObj [("error", JStr "Already subscribed to path: /api/salads")])],
     state_after (PubSub.subscribe sample_urlparse accept_all [("path", JStr "/api/salads")])
       PubSub.fresh,
     inr tt).
Proof.
  apply (subscribe_twice sample_urlparse accept_all [("path", JStr "/api/salads")]
           [("path", JStr "http://localhost:5000/api/salads")]
           "/api/salads" "http://localhost:5000/api/salads" "/api/salads" []
           PubSub.fresh);
    try reflexivity.
  apply not_elem_of_empty.
Defined.

Lemma unsubscribe_twice_witness :
  PubSub.unsubscribe sample_urlparse [("path", JStr "/api/salads")]
    (state_after (PubSub.unsubscribe sample_urlparse [("path", JStr "/api/salads")])
       (subscribed_to "/api/salads"))
  = ([WsSend (JObj [("error", JStr "Not subscribed to path: /api/salads")])],
     state_after (PubSub.unsubscribe sample_urlparse [("path", JStr "/api/salads")])
       (subscribed_to "/api/salads"),
     inr tt).
Proof.
  apply (unsubscribe_twice sample_urlparse [("path", JStr "/api/salads")]
           [("path", JStr "/api/salads")] "/api/salads" "/api/salads"
           "/api/salads" (subscribed_to "/api/salads"));
    reflexivity.
Defined.

(** ** Messages the producer cannot forward *)

(** X17: A redis message of type [message] whose data is not the JSON of a dict
    with a ['data'] and a ['type'] makes the producer raise: the exception
    of [json.loads], [TypeError] for a value that is not a dict, [KeyError]
    for the first of the two keys that is missing. Nothing is sent, and the
    turn of the loop that took the message raises the same exception, so
    that [handle] is left. *)
Theorem producer_bad_payload_raises (urlparse : string → Exn + Urllib.ParseResult)
    (check_path : string → Eff bool) (json_loads : string → Exn + json)
    (decode_utf8 : list Byte.byte → Exn + string)
    r_message path bytes raw st :
  r_type r_message = "message" →
  decode_utf8 (r_channel r_message) = inr path →
  r_data r_message = inl bytes → decode_utf8 bytes = inr raw →
  ∀ e,
    (json_loads raw = inl e
     ∨ (∃ v, json_loads raw = inr v ∧ (∀ d, v ≠ JObj d) ∧ e = TypeError)
     ∨ (∃ d, json_loads raw = inr (JObj d) ∧ dict_get d "data" = None
             ∧ e = KeyError "data")
     ∨ (∃ d x, json_loads raw = inr (JObj d) ∧ dict_get d "data" = Some x
               ∧ dict_get d "type" = None ∧ e = KeyError "type")) →
    PubSub.producer json_loads decode_utf8 r_message st = ([], st, inl e)
    ∧ ∀ readies,
        PubSub.handle urlparse check_path json_loads decode_utf8 (mret tt)
          (Published r_message :: readies) st
        = ([WsRecv], st, inl e).
Proof.
  intros Hty Hch Hdata Hraw e Hbad.
  assert (Hp : PubSub.producer json_loads decode_utf8 r_message st
               = ([], st, inl e)).
  { unfold PubSub.producer. run_M. rewrite Hch, Hty, Hdata, Hraw. simpl.
    destruct Hbad as [->|[(v & -> & Hv & ->)|[(d & -> & Hd & ->)
                         |(d & x & -> & Hd & Ht & ->)]]]; simpl.
    - done.
    - destruct v; try done. by destruct (Hv items).
    - unfold dict_getitem. by rewrite Hd.
    - unfold dict_getitem. by rewrite Hd, Ht. }
  split; [done|]. intros readies.
  cbn [PubSub.handle]. unfold PubSub.finish, PubSub.as_task. run_M.
  by rewrite Hp.
Qed.

Lemma producer_bad_payload_raises_witness :
  PubSub.producer sample_loads sample_decode (tomato_message "/api/salads")
    PubSub.fresh
  = ([], PubSub.fresh, inl JSONDecodeError).
Proof.
  apply (producer_bad_payload_raises sample_urlparse module_check sample_loads sample_decode
           (tomato_message "/api/salads") "/api/salads"
           (list_byte_of_string "tomato created") "tomato created" PubSub.fresh
           eq_refl eq_refl eq_refl eq_refl JSONDecodeError).
  left. reflexivity.
Defined.

(** ** The pool and the polling *)

(** X19: However many handlers are created, the pool is made once, by the first
    of them, from the configured url; every handler gets that same pool. If
    the class already has a pool, none is made. *)
Theorem get_redis_pool_is_created_once {Pool : Type}
    (from_url : string → Pool) (redis_uri : string) (n : nat) :
  get_redis_pool_times Pool from_url redis_uri (S n) None
  = (Some (from_url redis_uri), replicate (S n) (from_url redis_uri), [redis_uri])
  ∧ ∀ pool,
      get_redis_pool_times Pool from_url redis_uri n (Some pool)
      = (Some pool, replicate n pool, []).
Proof.
  assert (Hsome : ∀ m pool,
            get_redis_pool_times Pool from_url redis_uri m (Some pool)
            = (Some pool, replicate m pool, [])).
  { induction m as [|m IH]; intros pool; simpl; [done|]. by rewrite IH. }
  split; [|by apply Hsome]. simpl. by rewrite Hsome.
Qed.

(** X20: [get_redis_message] returns the first message the handle gives, after
    one sleep for each empty poll before it, and takes nothing further off
    the handle: the polls it made are exactly the empty ones and the one
    that gave the message. *)
Theorem get_redis_message_returns_first polls sleeps message rest :
  get_redis_message polls = (sleeps, Some message, rest)
  ↔ polls = replicate sleeps None ++ Some message :: rest.
Proof.
  revert sleeps. induction polls as [|[m|] polls IH]; intros sleeps; simpl.
  - split; [done|]. by destruct sleeps.
  - split.
    + by intros [= <- <- <-].
    + destruct sleeps; [by intros [= <- <-]|done].
  - destruct (get_redis_message polls) as [[n r] rest'].
    split.
    + intros [= <- -> ->]. simpl. f_equal. by apply IH.
    + destruct sleeps as [|k]; [done|]. simpl. intros [= Hpolls].
      apply IH in Hpolls. by injection Hpolls as -> -> ->.
Qed.
